(** * home_vision: fusion state machine and spotlight controller

    A shallow embedding of [home_vision/vision/fuse_vision.py] and
    [home_vision/nodes/spotlight_controller.py].

    Number model.  In the two state machines, Python [float] values
    (coordinates, timestamps, brightness, angles) are embedded as exact
    rationals [Q]; comparisons are the decidable [Qle_bool]/[Qeq_bool],
    and rounding, infinities and NaN of binary64 are outside that model.
    The algebraic laws of the two geometry functions depend on rounding;
    they are stated and proved on [B64], a transcription of
    [line_crossed] and [point_in_polygon] over the primitive binary64
    floats, whose operations are specified by [FloatAxioms].

    Clock model.  Every call of [utc_timestamp()] / [time.time()] is an
    input of the embedding: the value it returned is passed explicitly to
    the function that made the call. *)

From Stdlib Require Import QArith Lqa Lia List Bool String Arith PeanoNat.
From Stdlib Require Import Sorting.Permutation.
From Stdlib Require Floats.
Import ListNotations.

Local Open Scope Q_scope.

(** ** Numbers *)

(** [a < b] on floats. *)
Definition Qlt_bool (a b : Q) : bool := negb (Qle_bool b a).

(** [a > b] on floats. *)
Definition Qgt_bool (a b : Q) : bool := Qlt_bool b a.

(** [a >= b] on floats. *)
Definition Qge_bool (a b : Q) : bool := Qle_bool b a.

(** Python [x or d] on a float: [x] when it is non-zero, else [d]. *)
Definition Qor (x d : Q) : Q := if Qeq_bool x 0 then d else x.

(** Python's two-argument [min]/[max]: the first argument is kept unless
    the second is strictly smaller (resp. larger). *)
Definition py_min (a b : Q) : Q := if Qlt_bool b a then b else a.
Definition py_max (a b : Q) : Q := if Qgt_bool b a then b else a.

(** ** Geometry ([fuse_vision.py], utility functions) *)

Definition point : Type := (Q * Q)%type.
Definition line : Type := (point * point)%type.
Definition polygon : Type := list point.

Record GeometryConfig := {
  bed_door : line;
  bath_door : line;
  living_room_polygon : polygon
}.

Definition default_geometry : GeometryConfig := {|
  bed_door := ((0.15, 0.30), (0.35, 0.30));
  bath_door := ((0.65, 0.40), (0.85, 0.40));
  living_room_polygon := [(0.2, 0.35); (0.8, 0.35); (0.85, 0.9); (0.15, 0.9)]
|}.

(** The test made for one polygon edge [(x1,y1) -> (x2,y2)] in the body
    of the loop of [point_in_polygon], in exact arithmetic: the abscissa
    of the edge is not rounded here ([B64.intersects] is the binary64
    one). *)
Definition intersects (pt v1 v2 : point) : bool :=
  let '(x, y) := pt in
  let '(x1, y1) := v1 in
  let '(x2, y2) := v2 in
  negb (Bool.eqb (Qgt_bool y1 y) (Qgt_bool y2 y))
  && Qlt_bool x ((x2 - x1) * (y - y1) / Qor (y2 - y1) 0.000001 + x1).

(** [point_in_polygon]: the loop over [range(len(polygon))], reading
    [polygon[i]] and [polygon[(i + 1) % len(polygon)]]. *)
Definition point_in_polygon (pt : point) (poly : polygon) : bool :=
  fold_left
    (fun (inside : bool) (i : nat) =>
       let v1 := nth i poly (0, 0) in
       let v2 := nth ((i + 1) mod (List.length poly)) poly (0, 0) in
       if intersects pt v1 v2 then negb inside else inside)
    (seq 0 (List.length poly)) false.

(** [line_crossed]: [None] or the direction string, in exact arithmetic:
    the two side values and the dot product are not rounded here
    ([B64.line_crossed] is the binary64 one). *)
Definition line_crossed (prev_point curr_point : point) (l : line)
  : option string :=
  let '((x1, y1), (x2, y2)) := l in
  let a := y1 - y2 in
  let b := x2 - x1 in
  let c := x1 * y2 - x2 * y1 in
  let prev_side := a * fst prev_point + b * snd prev_point + c in
  let curr_side := a * fst curr_point + b * snd curr_point + c in
  if Qeq_bool prev_side 0 || Qeq_bool curr_side 0
     || Qgt_bool (prev_side * curr_side) 0
  then None
  else
    let direction_vector :=
      (fst curr_point - fst prev_point, snd curr_point - snd prev_point) in
    let normal := (a, b) in
    let dot := fst direction_vector * fst normal
               + snd direction_vector * snd normal in
    Some (if Qgt_bool dot 0 then "into_living" else "into_room")%string.

(** Cyclic rotation of a vertex sequence: one step moves the first vertex
    to the end, [rotate k] makes [k] steps. *)
Definition rot1 {A : Type} (l : list A) : list A :=
  match l with
  | [] => []
  | v :: rest => rest ++ [v]
  end.

Definition rotate {A : Type} (k : nat) (l : list A) : list A :=
  Nat.iter k rot1 l.

(** ** Fusion service ([fuse_vision.py], [VisionFusionService]) *)

Local Open Scope string_scope.
Local Open Scope list_scope.

Record FusionConfig := {
  detection_cooldown : Q;
  presence_hold_seconds : Q;
  presence_confirm_seconds : Q;
  pir_boost_window : Q;
  pir_cross_window : Q;
  geometry : GeometryConfig
}.

Definition default_config : FusionConfig := {|
  detection_cooldown := 1.0;
  presence_hold_seconds := 3.0;
  presence_confirm_seconds := 0.5;
  pir_boost_window := 2.0;
  pir_cross_window := 1.0;
  geometry := default_geometry
|}.

(** [FusionConfig.mqtt_topics].  [load_config] never passes the field, so
    the table built by the [default_factory] is the one every service
    uses. *)
Module mqtt_topics.
Definition pir := "sensors/door/+/pir".
Definition vision_state := "vision/state/living_room".
Definition bed_event_out := "events/person/bedroom/out".
Definition bed_event_in := "events/person/bedroom/in".
Definition bath_event_out := "events/person/bathroom/out".
Definition bath_event_in := "events/person/bathroom/in".
End mqtt_topics.

(** Keys of the dict [_last_cross_time] (["bed"], ["bath"]) and of the
    dict [_pir_last_on] (["bedroom"], ["bathroom"]). *)
Inductive door_name := bed | bath.
Inductive zone_name := bedroom | bathroom.

Definition door_eqb (a b : door_name) : bool :=
  match a, b with
  | bed, bed | bath, bath => true
  | _, _ => false
  end.

Record door_dict := { at_bed : Q; at_bath : Q }.
Record zone_dict := { at_bedroom : Q; at_bathroom : Q }.

Definition door_get (m : door_dict) (d : door_name) : Q :=
  match d with bed => at_bed m | bath => at_bath m end.

Definition door_set (m : door_dict) (d : door_name) (v : Q) : door_dict :=
  match d with
  | bed => {| at_bed := v; at_bath := at_bath m |}
  | bath => {| at_bed := at_bed m; at_bath := v |}
  end.

Definition zone_get (m : zone_dict) (z : zone_name) : Q :=
  match z with bedroom => at_bedroom m | bathroom => at_bathroom m end.

Definition zone_set (m : zone_dict) (z : zone_name) (v : Q) : zone_dict :=
  match z with
  | bedroom => {| at_bedroom := v; at_bathroom := at_bathroom m |}
  | bathroom => {| at_bedroom := at_bedroom m; at_bathroom := v |}
  end.

(** The two payload shapes handed to [_publish]. *)
Inductive payload :=
| CrossingPayload (ts : Q) (dir : string) (centroid : point) (conf : Q)
| PresencePayload (present : bool) (conf : Q) (ts : Q).

Record publication := { pub_topic : string; pub_payload : payload }.

(** The dict returned by [_process_frame]; [door] and [direction] are
    present only after [detection.update]. *)
Record detection := {
  det_centroid : point;
  det_ts : Q;
  det_door : option door_name;
  det_direction : option string
}.

(** The mutable attributes of [VisionFusionService], and the sequence of
    [_publish] calls made so far (oldest first). *)
Record service := {
  last_centroid : option point;
  last_cross_time : door_dict;
  last_presence_state : bool;
  presence_enter_time : Q;
  presence_exit_start : Q;
  pir_last_on : zone_dict;
  pir_last_topic : option string;
  published : list publication
}.

(** [VisionFusionService.__init__]. *)
Definition init_service : service := {|
  last_centroid := None;
  last_cross_time := {| at_bed := 0.0; at_bath := 0.0 |};
  last_presence_state := false;
  presence_enter_time := 0.0;
  presence_exit_start := 0.0;
  pir_last_on := {| at_bedroom := 0.0; at_bathroom := 0.0 |};
  pir_last_topic := None;
  published := []
|}.

Definition set_last_centroid (v : option point) (s : service) : service :=
  {| last_centroid := v; last_cross_time := last_cross_time s;
     last_presence_state := last_presence_state s;
     presence_enter_time := presence_enter_time s;
     presence_exit_start := presence_exit_start s;
     pir_last_on := pir_last_on s; pir_last_topic := pir_last_topic s;
     published := published s |}.

Definition set_last_cross_time (v : door_dict) (s : service) : service :=
  {| last_centroid := last_centroid s; last_cross_time := v;
     last_presence_state := last_presence_state s;
     presence_enter_time := presence_enter_time s;
     presence_exit_start := presence_exit_start s;
     pir_last_on := pir_last_on s; pir_last_topic := pir_last_topic s;
     published := published s |}.

Definition set_last_presence_state (v : bool) (s : service) : service :=
  {| last_centroid := last_centroid s; last_cross_time := last_cross_time s;
     last_presence_state := v;
     presence_enter_time := presence_enter_time s;
     presence_exit_start := presence_exit_start s;
     pir_last_on := pir_last_on s; pir_last_topic := pir_last_topic s;
     published := published s |}.

Definition set_presence_enter_time (v : Q) (s : service) : service :=
  {| last_centroid := last_centroid s; last_cross_time := last_cross_time s;
     last_presence_state := last_presence_state s;
     presence_enter_time := v;
     presence_exit_start := presence_exit_start s;
     pir_last_on := pir_last_on s; pir_last_topic := pir_last_topic s;
     published := published s |}.

Definition set_presence_exit_start (v : Q) (s : service) : service :=
  {| last_centroid := last_centroid s; last_cross_time := last_cross_time s;
     last_presence_state := last_presence_state s;
     presence_enter_time := presence_enter_time s;
     presence_exit_start := v;
     pir_last_on := pir_last_on s; pir_last_topic := pir_last_topic s;
     published := published s |}.

Definition set_pir (v : zone_dict) (topic : option string) (s : service)
  : service :=
  {| last_centroid := last_centroid s; last_cross_time := last_cross_time s;
     last_presence_state := last_presence_state s;
     presence_enter_time := presence_enter_time s;
     presence_exit_start := presence_exit_start s;
     pir_last_on := v; pir_last_topic := topic;
     published := published s |}.

(** [_publish]: the bus publish and the JSONL mirror carry the same
    [(topic, payload)]; the call is recorded once. *)
Definition publish (topic : string) (p : payload) (s : service) : service :=
  {| last_centroid := last_centroid s; last_cross_time := last_cross_time s;
     last_presence_state := last_presence_state s;
     presence_enter_time := presence_enter_time s;
     presence_exit_start := presence_exit_start s;
     pir_last_on := pir_last_on s; pir_last_topic := pir_last_topic s;
     published := published s ++ [{| pub_topic := topic; pub_payload := p |}] |}.

(** [_publish_presence]; [now] is the clock read for the payload. *)
Definition publish_presence (present : bool) (now : Q) (s : service)
  : service :=
  publish mqtt_topics.vision_state
          (PresencePayload present (if present then 0.9 else 0.8)%Q now) s.

(** [_update_presence]; [ts] is the clock read on entry, [now_pub] the one
    read by [_publish_presence] if it is called. *)
Definition update_presence (cfg : FusionConfig) (centroid : option point)
  (ts now_pub : Q) (s : service) : service :=
  let in_polygon :=
    match centroid with
    | None => false
    | Some c => point_in_polygon c (living_room_polygon (geometry cfg))
    end in
  if in_polygon then
    if negb (last_presence_state s) then
      if Qeq_bool (presence_enter_time s) 0 then
        set_presence_enter_time ts s
      else if Qge_bool (ts - presence_enter_time s)
                       (presence_confirm_seconds cfg) then
        publish_presence true now_pub
          (set_presence_exit_start 0 (set_last_presence_state true s))
      else s
    else set_presence_exit_start 0 s
  else
    let s := set_presence_enter_time 0 s in
    if last_presence_state s then
      if Qeq_bool (presence_exit_start s) 0 then
        set_presence_exit_start ts s
      else if Qge_bool (ts - presence_exit_start s)
                       (presence_hold_seconds cfg) then
        publish_presence false now_pub (set_last_presence_state false s)
      else s
    else set_presence_exit_start 0 s.

(** Truthiness of an [Optional[str]]: [None] and the empty string are
    falsy. *)
Definition str_truthy (o : option string) : bool :=
  match o with
  | None => false
  | Some v => negb (String.eqb v "")
  end.

Definition door_str (d : door_name) : string :=
  match d with bed => "bed" | bath => "bath" end.

(** What one captured frame contributes: the normalized centroid found by
    the detection stage ([None] on each of the three paths of
    [_process_frame] that call [_update_presence(None)]), and the clock
    values returned to [_update_presence], to [_publish_presence] and to
    [_process_frame] itself. *)
Record frame := {
  frame_centroid : option point;
  clock_update_presence : Q;
  clock_publish_presence : Q;
  clock_process_frame : Q
}.

(** The [for door_name, line in (...)] loop of [_process_frame]: [continue]
    is the recursive call, [break] returns. *)
Fixpoint check_doors (cfg : FusionConfig) (prev centroid_norm : point)
  (ts : Q) (doors : list (door_name * line)) (det : detection) (s : service)
  : detection * service :=
  match doors with
  | [] => (det, s)
  | (door, l) :: rest =>
      let direction := line_crossed prev centroid_norm l in
      if negb (str_truthy direction) then
        check_doors cfg prev centroid_norm ts rest det s
      else
        let last_cross := door_get (last_cross_time s) door in
        if Qlt_bool (ts - last_cross) (detection_cooldown cfg) then
          check_doors cfg prev centroid_norm ts rest det s
        else
          ({| det_centroid := det_centroid det; det_ts := det_ts det;
              det_door := Some door; det_direction := direction |},
           set_last_cross_time (door_set (last_cross_time s) door ts) s)
  end.

(** [_process_frame], from the result of the detection stage on. *)
Definition process_frame (cfg : FusionConfig) (f : frame) (s : service)
  : option detection * service :=
  match frame_centroid f with
  | None =>
      (None, update_presence cfg None (clock_update_presence f)
                             (clock_publish_presence f) s)
  | Some centroid_norm =>
      let s := update_presence cfg (Some centroid_norm)
                 (clock_update_presence f) (clock_publish_presence f) s in
      let prev := last_centroid s in
      let s := set_last_centroid (Some centroid_norm) s in
      match prev with
      | None => (None, s)
      | Some prev =>
          let ts := clock_process_frame f in
          let det := {| det_centroid := centroid_norm; det_ts := ts;
                        det_door := None; det_direction := None |} in
          let '(det, s) :=
            check_doors cfg prev centroid_norm ts
              [(bed, bed_door (geometry cfg));
               (bath, bath_door (geometry cfg))] det s in
          (Some det, s)
      end
  end.

(** [_handle_detection]. *)
Definition handle_detection (cfg : FusionConfig) (det : detection)
  (s : service) : service :=
  let door := det_door det in
  let direction := det_direction det in
  let centroid := det_centroid det in
  let ts := det_ts det in
  match door, direction with
  | Some door, Some direction =>
      if negb (str_truthy (Some (door_str door)))
         || negb (str_truthy (Some direction)) then s
      else
        let zone := if door_eqb door bed then bedroom else bathroom in
        let pir_ts := zone_get (pir_last_on s) zone in
        let pir_recent := Qle_bool (ts - pir_ts) (pir_cross_window cfg) in
        let confidence := (if pir_recent then 0.85 else 0.7)%Q in
        let p := CrossingPayload ts direction centroid confidence in
        let topic :=
          if String.eqb direction "into_living" then
            match zone with
            | bedroom => mqtt_topics.bed_event_out
            | bathroom => mqtt_topics.bath_event_out
            end
          else
            match zone with
            | bedroom => mqtt_topics.bed_event_in
            | bathroom => mqtt_topics.bath_event_in
            end in
        publish topic p s
  | _, _ => s
  end.

(** ["bedroom" in topic]. *)
Fixpoint contains (needle hay : string) : bool :=
  String.prefix needle hay
  || match hay with
     | EmptyString => false
     | String _ rest => contains needle rest
     end.

(** One queued bus message: its topic, the fields [state] and [ts] of the
    decoded payload, and the clock value read for the default of
    [payload.get("ts", utc_timestamp())]. *)
Record pir_message := {
  pir_topic : string;
  pir_state : option string;
  pir_ts : option Q;
  pir_clock : Q
}.

(** Body of the loop of [_handle_pir_events] for one queued message. *)
Definition handle_pir_event (m : pir_message) (s : service) : service :=
  let zone := if contains "bedroom" (pir_topic m) then bedroom
              else bathroom in
  match pir_state m with
  | Some st =>
      if String.eqb st "ON" then
        set_pir (zone_set (pir_last_on s) zone
                   (match pir_ts m with Some t => t | None => pir_clock m end))
                (Some (pir_topic m)) s
      else s
  | None => s
  end.

(** The run loop: queued PIR messages are drained, then one frame is
    processed and, when [_process_frame] returned a dict, handed to
    [_handle_detection].  An execution is the sequence of messages and
    frames in the order the loop consumed them. *)
Inductive input :=
| Pir (m : pir_message)
| Frame (f : frame).

Definition step (cfg : FusionConfig) (s : service) (i : input) : service :=
  match i with
  | Pir m => handle_pir_event m s
  | Frame f =>
      let '(det, s) := process_frame cfg f s in
      match det with
      | Some det => handle_detection cfg det s
      | None => s
      end
  end.

Definition run (cfg : FusionConfig) (inputs : list input) (s : service)
  : service :=
  fold_left (step cfg) inputs s.

(** A frame all of whose clock reads return [t]. *)
Definition frame_at (c : option point) (t : Q) : frame :=
  {| frame_centroid := c; clock_update_presence := t;
     clock_publish_presence := t; clock_process_frame := t |}.

(** *** Observations on the published sequence *)

Definition door_of_topic (topic : string) : option door_name :=
  if String.eqb topic mqtt_topics.bed_event_out
     || String.eqb topic mqtt_topics.bed_event_in then Some bed
  else if String.eqb topic mqtt_topics.bath_event_out
          || String.eqb topic mqtt_topics.bath_event_in then Some bath
  else None.

(** Timestamps of the crossing events published for door [d], in
    publication order. *)
Fixpoint crossing_ts (d : door_name) (log : list publication) : list Q :=
  match log with
  | [] => []
  | {| pub_topic := topic; pub_payload := CrossingPayload ts _ _ _ |} :: rest =>
      match door_of_topic topic with
      | Some d' => if door_eqb d d' then ts :: crossing_ts d rest
                   else crossing_ts d rest
      | None => crossing_ts d rest
      end
  | _ :: rest => crossing_ts d rest
  end.

(** The presence events [(present, conf)] published on the presence
    topic, in publication order. *)
Fixpoint presence_events (log : list publication) : list (bool * Q) :=
  match log with
  | [] => []
  | {| pub_topic := topic; pub_payload := PresencePayload present conf _ |}
    :: rest =>
      if String.eqb topic mqtt_topics.vision_state
      then (present, conf) :: presence_events rest
      else presence_events rest
  | _ :: rest => presence_events rest
  end.

(** [x] is immediately followed by [y] in [l]. *)
Definition adjacent {A : Type} (l : list A) (x y : A) : Prop :=
  exists l1 l2, l = l1 ++ x :: y :: l2.

(** ** Spotlight controller ([spotlight_controller.py]) *)

Record SpotlightConfig := {
  trigger_on_topics : list string;
  trigger_off_topics : list string;
  light_hold_seconds : Q;
  brightness : Q;
  rest_brightness : Q;
  servo_pan_angle : Q;
  servo_tilt_angle : Q;
  servo_rest_pan : Q;
  servo_rest_tilt : Q;
  servo_min_angle : Q;
  servo_max_angle : Q;
  auto_rest : bool
}.

(** The dataclass defaults, after [ensure_topics]. *)
Definition default_spotlight : SpotlightConfig := {|
  trigger_on_topics := ["events/person/bedroom/out"];
  trigger_off_topics := ["events/person/bathroom/in"];
  light_hold_seconds := 8.0;
  brightness := 0.85;
  rest_brightness := 0.0;
  servo_pan_angle := -20.0;
  servo_tilt_angle := -5.0;
  servo_rest_pan := 0.0;
  servo_rest_tilt := 0.0;
  servo_min_angle := -90.0;
  servo_max_angle := 90.0;
  auto_rest := true
|}.

(** An assignment to a gpiozero device: [_pan.angle], [_tilt.angle] or
    [_led.value]. *)
Inductive hw_write :=
| PanAngle (angle : Q)
| TiltAngle (angle : Q)
| LedValue (value : Q).

(** [SpotlightHardware]: the [_mock] flag and the assignments made to the
    devices so far (oldest first).  Outside mock mode the three devices
    are always constructed, so the [if self._pan:] tests succeed. *)
Record SpotlightHardware := {
  mock : bool;
  writes : list hw_write
}.

Definition clamp_angle (cfg : SpotlightConfig) (angle : Q) : Q :=
  py_max (servo_min_angle cfg) (py_min (servo_max_angle cfg) angle).

Definition set_orientation (cfg : SpotlightConfig) (pan tilt : Q)
  (hw : SpotlightHardware) : SpotlightHardware :=
  let pan := clamp_angle cfg pan in
  let tilt := clamp_angle cfg tilt in
  if mock hw then hw
  else {| mock := mock hw;
          writes := writes hw ++ [PanAngle pan; TiltAngle tilt] |}.

Definition set_brightness (value : Q) (hw : SpotlightHardware)
  : SpotlightHardware :=
  let value := py_max 0.0 (py_min 1.0 value) in
  if mock hw then hw
  else {| mock := mock hw; writes := writes hw ++ [LedValue value] |}.

(** The mutable attributes of [SpotlightController]; [lock_held] is the
    state of [self._lock], a [threading.Lock]. *)
Record SpotlightController := {
  hardware : SpotlightHardware;
  last_on : Q;
  current_brightness : Q;
  lock_held : bool
}.

(** [SpotlightController.__init__]. *)
Definition init_controller (cfg : SpotlightConfig) (is_mock : bool)
  : SpotlightController := {|
  hardware := {| mock := is_mock; writes := [] |};
  last_on := 0.0;
  current_brightness := rest_brightness cfg;
  lock_held := false
|}.

Definition set_hardware (v : SpotlightHardware) (c : SpotlightController)
  : SpotlightController :=
  {| hardware := v; last_on := last_on c;
     current_brightness := current_brightness c; lock_held := lock_held c |}.

Definition set_last_on (v : Q) (c : SpotlightController)
  : SpotlightController :=
  {| hardware := hardware c; last_on := v;
     current_brightness := current_brightness c; lock_held := lock_held c |}.

Definition set_current_brightness (v : Q) (c : SpotlightController)
  : SpotlightController :=
  {| hardware := hardware c; last_on := last_on c;
     current_brightness := v; lock_held := lock_held c |}.

Definition set_lock_held (v : bool) (c : SpotlightController)
  : SpotlightController :=
  {| hardware := hardware c; last_on := last_on c;
     current_brightness := current_brightness c; lock_held := v |}.

(** How a method call of the controller ends for the calling thread:
    it returns, or it waits in [Lock.acquire] for a lock that the thread
    itself holds.  [threading.Lock] is not reentrant and has no owner, and
    nothing else releases it, so the wait never ends; the state is the one
    at the point of blocking. *)
Inductive outcome :=
| Returned (c : SpotlightController)
| Blocked (c : SpotlightController).

(** [with self._lock: body].  The lock is released when the block is left,
    also by a [return] inside it. *)
Definition with_lock (body : SpotlightController -> outcome)
  (c : SpotlightController) : outcome :=
  if lock_held c then Blocked c
  else
    match body (set_lock_held true c) with
    | Returned c' => Returned (set_lock_held false c')
    | Blocked c' => Blocked c'
    end.

(** [_activate]; [now] is the value of [time.time()]. *)
Definition activate (cfg : SpotlightConfig) (now : Q)
  (c : SpotlightController) : outcome :=
  with_lock
    (fun c =>
       let c := set_last_on now c in
       if Qeq_bool (current_brightness c) (brightness cfg) then Returned c
       else
         let c := set_hardware
                    (set_orientation cfg (servo_pan_angle cfg)
                       (servo_tilt_angle cfg) (hardware c)) c in
         let c := set_hardware
                    (set_brightness (brightness cfg) (hardware c)) c in
         Returned (set_current_brightness (brightness cfg) c))
    c.

(** [_deactivate]. *)
Definition deactivate (cfg : SpotlightConfig) (c : SpotlightController)
  : outcome :=
  with_lock
    (fun c =>
       if Qeq_bool (current_brightness c) (rest_brightness cfg)
       then Returned c
       else
         let c := set_hardware
                    (set_brightness (rest_brightness cfg) (hardware c)) c in
         let c := set_current_brightness (rest_brightness cfg) c in
         if auto_rest cfg then
           Returned (set_hardware
                       (set_orientation cfg (servo_rest_pan cfg)
                          (servo_rest_tilt cfg) (hardware c)) c)
         else Returned c)
    c.

(** [periodic]; [now] is the value [time.time()] returns if the call is
    reached. *)
Definition periodic (cfg : SpotlightConfig) (now : Q)
  (c : SpotlightController) : outcome :=
  if Qle_bool (light_hold_seconds cfg) 0 then Returned c
  else
    with_lock
      (fun c =>
         if negb (Qeq_bool (current_brightness c) (brightness cfg))
         then Returned c
         else if Qge_bool (now - last_on c) (light_hold_seconds cfg)
              then deactivate cfg c
              else Returned c)
      c.

(** [topic in topics] for a list of strings. *)
Definition topic_in (topic : string) (topics : list string) : bool :=
  existsb (String.eqb topic) topics.

(** [_on_message] for a payload that is valid UTF-8: the decoded payload
    is only logged, whether [json.loads] accepts it or not.
    [on_message_bytes] below covers the payload that does not decode. *)
Definition on_message (cfg : SpotlightConfig) (topic : string) (now : Q)
  (c : SpotlightController) : outcome :=
  if topic_in topic (trigger_on_topics cfg) then activate cfg now c
  else if topic_in topic (trigger_off_topics cfg) then deactivate cfg c
  else Returned c.

(** The state a call ended in, whichever way it ended. *)
Definition final (o : outcome) : SpotlightController :=
  match o with Returned c | Blocked c => c end.

(** The device assignments a call added to those of [c]. *)
Definition new_writes (c : SpotlightController) (o : outcome)
  : list hw_write :=
  skipn (List.length (writes (hardware c))) (writes (hardware (final o))).

(** ** Auxiliary definitions for the statements *)

(** The directed edges visited by the loop of [point_in_polygon]:
    [(polygon[i], polygon[(i + 1) % n])] for [i = 0 .. n-1]. *)
Definition edges (poly : polygon) : list (point * point) :=
  combine poly (rot1 poly).

(** Parity of the number of elements satisfying [f]. *)
Definition parity {A : Type} (f : A -> bool) (l : list A) : bool :=
  fold_right (fun e acc => xorb (f e) acc) false l.

Definition swap {A B : Type} (p : A * B) : B * A := (snd p, fst p).

(** Scenario: confirmed presence (inside at t=100 and t=100.5), then the
    centroid stays outside the polygon from t=110 until the hold time has
    passed at t=113. *)
Definition presence_lost_run : list input :=
  [Frame (frame_at (Some (0.5, 0.5)%Q) 100);
   Frame (frame_at (Some (0.5, 0.5)%Q) 100.5);
   Frame (frame_at (Some (0.5, 0.1)%Q) 110);
   Frame (frame_at (Some (0.5, 0.1)%Q) 113)].

(** The publication made by [_publish_presence]. *)
Definition presence_pub (present : bool) (now : Q) : publication :=
  {| pub_topic := mqtt_topics.vision_state;
     pub_payload :=
       PresencePayload present (if present then 0.9 else 0.8)%Q now |}.

(** The topic [_handle_detection] selects. *)
Definition crossing_topic (door : door_name) (direction : string) : string :=
  if String.eqb direction "into_living" then
    match door with
    | bed => mqtt_topics.bed_event_out
    | bath => mqtt_topics.bath_event_out
    end
  else
    match door with
    | bed => mqtt_topics.bed_event_in
    | bath => mqtt_topics.bath_event_in
    end.

(** The presence events published so far alternate, start with [true],
    end with the current presence state and carry the confidence that goes
    with their value. *)
Definition presence_inv (s : service) : Prop :=
  let evs := presence_events (published s) in
  (forall e1 e2, adjacent evs e1 e2 -> fst e1 <> fst e2)
  /\ (forall e rest, evs = e :: rest -> fst e = true)
  /\ (forall l0 e, evs = l0 ++ [e] -> fst e = last_presence_state s)
  /\ (evs = [] -> last_presence_state s = false)
  /\ (forall e, In e evs -> snd e = if fst e then 0.9 else 0.8)%Q.

(** For door [d]: published crossings are at least the cooldown apart, and
    [_last_cross_time[d]] is the timestamp of the last published one. *)
Definition cooldown_inv (cfg : FusionConfig) (d : door_name) (s : service)
  : Prop :=
  let l := crossing_ts d (published s) in
  (forall t1 t2, adjacent l t1 t2 -> detection_cooldown cfg <= t2 - t1)%Q
  /\ (forall l0 t, l = l0 ++ [t] -> door_get (last_cross_time s) d = t).

(** Scenario: the centroid moves back and forth across the bedroom door
    line at t=100.1, t=100.5 and t=101.2. *)
Definition three_crossings_run : list input :=
  [Frame (frame_at (Some (0.25, 0.20)%Q) 100);
   Frame (frame_at (Some (0.25, 0.32)%Q) 100.1);
   Frame (frame_at (Some (0.25, 0.20)%Q) 100.5);
   Frame (frame_at (Some (0.25, 0.32)%Q) 101.2)].

(** Centroid (0.25, 0.20) with the clock at [t0], then centroid
    (0.25, 0.40) with the clock at [t1]; no PIR message. *)
Definition scenario1 (t0 t1 : Q) : list input :=
  [Frame (frame_at (Some (0.25, 0.20)%Q) t0);
   Frame (frame_at (Some (0.25, 0.40)%Q) t1)].

(** The controller on real hardware after a trigger-on message handled at
    time 0: servos at the target angles, LED at the active brightness. *)
Definition lit_controller : SpotlightController :=
  final (activate default_spotlight 0
           (init_controller default_spotlight false)).

(** ** Further functions of [fuse_vision.py] *)

(** [normalize_point] on integer pixel coordinates; [None] stands for the
    [ZeroDivisionError] raised by a division by [float(0)]. *)
Definition normalize_point (pt : Z * Z) (frame_size : Z * Z)
  : option point :=
  let '(width, height) := frame_size in
  if (width =? 0)%Z || (height =? 0)%Z then None
  else Some (inject_Z (fst pt) / inject_Z width,
             inject_Z (snd pt) / inject_Z height)%Q.

(** [_pir_boost_active]; [ts] is the optional argument and [clock] the value
    [utc_timestamp()] returns when [ts or utc_timestamp()] reads it. *)
Definition pir_boost_active (cfg : FusionConfig) (ts : option Q) (clock : Q)
  (s : service) : bool :=
  let ts := match ts with
            | Some t => Qor t clock
            | None => clock
            end in
  let window := pir_boost_window cfg in
  Qle_bool (ts - at_bedroom (pir_last_on s)) window
  || Qle_bool (ts - at_bathroom (pir_last_on s)) window.

(** The signed side [A*x + B*y + C] that [line_crossed] computes for a
    point. *)
Definition side (l : line) (p : point) : Q :=
  let '((x1, y1), (x2, y2)) := l in
  ((y1 - y2) * fst p + (x2 - x1) * snd p + (x1 * y2 - x2 * y1))%Q.

(** The decision of [line_crossed] as a function of the two signed
    sides. *)
Definition crossing_of_sides (prev_side curr_side : Q) : option string :=
  if Qeq_bool prev_side 0 || Qeq_bool curr_side 0
     || Qgt_bool (prev_side * curr_side) 0
  then None
  else Some (if Qgt_bool (curr_side - prev_side) 0
             then "into_living" else "into_room").

(** The axis-parallel rectangle with corners [(x0,y0)] and [(x1,y1)], as
    a vertex sequence. *)
Definition rectangle (x0 y0 x1 y1 : Q) : polygon :=
  [(x0, y0); (x1, y0); (x1, y1); (x0, y1)].

(** The line [_process_frame] pairs with each door name, and the zone
    [_handle_detection] derives from it. *)
Definition door_line (cfg : FusionConfig) (d : door_name) : line :=
  match d with
  | bed => bed_door (geometry cfg)
  | bath => bath_door (geometry cfg)
  end.

Definition zone_of_door (d : door_name) : zone_name :=
  match d with bed => bedroom | bath => bathroom end.

(** The publication [_handle_detection] makes for a crossing of [door] in
    direction [dir] at time [ts], given the PIR times of state [s]. *)
Definition crossing_pub (cfg : FusionConfig) (s : service)
  (door : door_name) (dir : string) (c : point) (ts : Q) : publication :=
  {| pub_topic := crossing_topic door dir;
     pub_payload :=
       CrossingPayload ts dir c
         (if Qle_bool (ts - zone_get (pir_last_on s) (zone_of_door door))
                      (pir_cross_window cfg)
          then 0.85 else 0.7)%Q |}.

(** What every publication of the service looks like. *)
Definition well_formed (p : publication) : Prop :=
  match pub_payload p with
  | CrossingPayload ts dir c conf =>
      (conf = 0.7%Q \/ conf = 0.85%Q)
      /\ ((dir = "into_living"
           /\ (pub_topic p = "events/person/bedroom/out"
               \/ pub_topic p = "events/person/bathroom/out"))
          \/ (dir = "into_room"
              /\ (pub_topic p = "events/person/bedroom/in"
                  \/ pub_topic p = "events/person/bathroom/in")))
  | PresencePayload present conf ts =>
      pub_topic p = "vision/state/living_room"
      /\ conf = (if present then 0.9 else 0.8)%Q
  end.

(** The zone [_handle_pir_events] derives from a topic. *)
Definition zone_of_topic (topic : string) : zone_name :=
  if contains "bedroom" topic then bedroom else bathroom.

(** Door [d] is accepted by the loop of [_process_frame]: its line is
    crossed by the movement [prev -> c] and its cooldown has passed at
    [ts]. *)
Definition accepted (cfg : FusionConfig) (s : service) (prev c : point)
  (ts : Q) (d : door_name) : bool :=
  match line_crossed prev c (door_line cfg d) with
  | Some _ =>
      negb (Qlt_bool (ts - door_get (last_cross_time s) d)
                     (detection_cooldown cfg))
  | None => false
  end.

(** The door the loop stops at, if any: bed before bath. *)
Definition first_accepted (cfg : FusionConfig) (s : service) (prev c : point)
  (ts : Q) : option door_name :=
  if accepted cfg s prev c ts bed then Some bed
  else if accepted cfg s prev c ts bath then Some bath
  else None.

(** The crossing publication of a frame, if any: for the first accepted
    door, with the direction [line_crossed] found. *)
Definition crossing_of_frame (cfg : FusionConfig) (s : service) (f : frame)
  : list publication :=
  match frame_centroid f, last_centroid s with
  | Some c, Some prev =>
      let ts := clock_process_frame f in
      match first_accepted cfg s prev c ts with
      | Some d =>
          match line_crossed prev c (door_line cfg d) with
          | Some dir => [crossing_pub cfg s d dir c ts]
          | None => []
          end
      | None => []
      end
  | _, _ => []
  end.

(** Scenario: a centroid moving down the frame at x = 0.5, from y = 0.2 to
    y = 0.5, passes the lines of both doors in one step. *)
Definition both_lines_run : list input :=
  [Frame (frame_at (Some (0.5, 0.2)%Q) 100);
   Frame (frame_at (Some (0.5, 0.5)%Q) 100.1)].

(** Frames in which the detection stage found nothing. *)
Definition empty_frames (fs : list frame) : Prop :=
  Forall (fun f => frame_centroid f = None) fs.

(** All crossing timestamps published so far, per door. *)
Definition no_new_crossing (s s' : service) : Prop :=
  forall d, crossing_ts d (published s') = crossing_ts d (published s).

(** The test [_update_presence] makes on its argument. *)
Definition in_polygon (cfg : FusionConfig) (centroid : option point) : bool :=
  match centroid with
  | None => false
  | Some c => point_in_polygon c (living_room_polygon (geometry cfg))
  end.

Definition zone_eqb (a b : zone_name) : bool :=
  match a, b with
  | bedroom, bedroom | bathroom, bathroom => true
  | _, _ => false
  end.

(** The time [_handle_pir_events] stores for a message: the payload's
    [ts] when it has one, else the clock. *)
Definition pir_time (m : pir_message) : Q :=
  match pir_ts m with
  | Some t => t
  | None => pir_clock m
  end.

(** ** Further functions of [spotlight_controller.py] *)

(** [SpotlightController._unique_topics]: the loop over [topics] with the
    set [seen] (used for membership only) and the list [ordered]. *)
Definition unique_topics (topics : list string) : list string :=
  snd (fold_left
         (fun (acc : list string * list string) (topic : string) =>
            let '(seen, ordered) := acc in
            if topic_in topic seen then (seen, ordered)
            else (topic :: seen, ordered ++ [topic]))
         topics ([], [])).

(** The topics [_on_connect] subscribes to, in order. *)
Definition subscriptions (cfg : SpotlightConfig) : list string :=
  unique_topics (trigger_on_topics cfg ++ trigger_off_topics cfg).

(** The fields [module_id] and [client_id] of [SpotlightConfig]. *)
Record SpotlightNames := {
  module_id : string;
  client_id : string
}.

Definition set_trigger_topics (on off : list string) (cfg : SpotlightConfig)
  : SpotlightConfig :=
  {| trigger_on_topics := on; trigger_off_topics := off;
     light_hold_seconds := light_hold_seconds cfg;
     brightness := brightness cfg; rest_brightness := rest_brightness cfg;
     servo_pan_angle := servo_pan_angle cfg;
     servo_tilt_angle := servo_tilt_angle cfg;
     servo_rest_pan := servo_rest_pan cfg;
     servo_rest_tilt := servo_rest_tilt cfg;
     servo_min_angle := servo_min_angle cfg;
     servo_max_angle := servo_max_angle cfg;
     auto_rest := auto_rest cfg |}.

(** Truthiness of a list and of a string. *)
Definition list_truthy {A : Type} (l : list A) : bool :=
  match l with [] => false | _ => true end.

(** [SpotlightConfig.ensure_topics]. *)
Definition ensure_topics (cfg : SpotlightConfig) (names : SpotlightNames)
  : SpotlightConfig * SpotlightNames :=
  let on := if list_truthy (trigger_on_topics cfg)
            then trigger_on_topics cfg
            else ["events/person/bedroom/out"] in
  let off := if list_truthy (trigger_off_topics cfg)
             then trigger_off_topics cfg
             else ["events/person/bathroom/in"] in
  let cid := if String.eqb (client_id names) ""
             then String.append "spotlight_" (module_id names)
             else client_id names in
  (set_trigger_topics on off cfg,
   {| module_id := module_id names; client_id := cid |}).

(** The hardware part of [SpotlightController.start]. *)
Definition start (cfg : SpotlightConfig) (c : SpotlightController)
  : SpotlightController :=
  let hw := set_orientation cfg (servo_rest_pan cfg) (servo_rest_tilt cfg)
              (hardware c) in
  set_hardware (set_brightness (rest_brightness cfg) hw) c.

(** What reaches the controller: a bus message on [topic], or a tick of
    the main loop; each with the clock value it reads. *)
Inductive ctl_event :=
| Message (topic : string) (now : Q)
| Tick (now : Q).

Definition ctl_step (cfg : SpotlightConfig) (c : SpotlightController)
  (e : ctl_event) : outcome :=
  match e with
  | Message topic now => on_message cfg topic now c
  | Tick now => periodic cfg now c
  end.

(** The controller state after a sequence of events.  A call that blocks
    leaves the lock taken, and the state at the point of blocking is what
    the later calls find. *)
Definition ctl_run (cfg : SpotlightConfig) (events : list ctl_event)
  (c : SpotlightController) : SpotlightController :=
  fold_left (fun c e => final (ctl_step cfg c e)) events c.

(** The hold window of [periodic] has expired for state [c] at [now]. *)
Definition hold_expired (cfg : SpotlightConfig) (now : Q)
  (c : SpotlightController) : bool :=
  negb (Qle_bool (light_hold_seconds cfg) 0)
  && Qeq_bool (current_brightness c) (brightness cfg)
  && Qge_bool (now - last_on c) (light_hold_seconds cfg).

(** The value of the last assignment to the LED, if any. *)
Fixpoint led_value (ws : list hw_write) : option Q :=
  match ws with
  | [] => None
  | w :: rest =>
      match led_value rest with
      | Some v => Some v
      | None => match w with LedValue v => Some v | _ => None end
      end
  end.

Definition is_message (e : ctl_event) : bool :=
  match e with Message _ _ => true | Tick _ => false end.

(** The topics of [topics] not in [seen], each at its first occurrence. *)
Fixpoint first_occurrences (seen topics : list string) : list string :=
  match topics with
  | [] => []
  | x :: rest =>
      if topic_in x seen then first_occurrences seen rest
      else x :: first_occurrences (x :: seen) rest
  end.

Definition other_than (x : string) (t : string) : bool :=
  negb (String.eqb t x).

(** The value [set_brightness] assigns for an argument. *)
Definition clamp_brightness (value : Q) : Q :=
  py_max 0.0 (py_min 1.0 value).

(** An assignment within the servo range, resp. within [[0, 1]]. *)
Definition write_in_range (cfg : SpotlightConfig) (w : hw_write) : Prop :=
  match w with
  | PanAngle a | TiltAngle a =>
      (servo_min_angle cfg <= a /\ a <= servo_max_angle cfg)%Q
  | LedValue v => (0 <= v /\ v <= 1)%Q
  end.

(** The state [_activate] leaves when it turns the light on, and the
    state [_deactivate] leaves when it turns it off. *)
Definition activated (cfg : SpotlightConfig) (now : Q)
  (c : SpotlightController) : SpotlightController :=
  let hw := set_orientation cfg (servo_pan_angle cfg) (servo_tilt_angle cfg)
              (hardware c) in
  let hw := set_brightness (brightness cfg) hw in
  set_hardware hw
    (set_current_brightness (brightness cfg) (set_last_on now c)).

Definition deactivated (cfg : SpotlightConfig) (c : SpotlightController)
  : SpotlightController :=
  let hw := set_brightness (rest_brightness cfg) (hardware c) in
  let hw := if auto_rest cfg
            then set_orientation cfg (servo_rest_pan cfg)
                   (servo_rest_tilt cfg) hw
            else hw in
  set_hardware hw (set_current_brightness (rest_brightness cfg) c).

(** The controller as [main] leaves it before the loop: constructed, then
    started. *)
Definition started_controller (cfg : SpotlightConfig) (is_mock : bool)
  : SpotlightController :=
  start cfg (init_controller cfg is_mock).

(** ** Binary64 embedding of the geometry functions *)

(** [line_crossed] and [point_in_polygon] compare the results of float
    arithmetic with zero and with each other, so their algebraic laws
    depend on rounding.  [B64] transcribes them over the primitive
    binary64 floats, operation by operation and in the source's order of
    evaluation: [+], [-], [*], [/] round to nearest even, [==], [<] and [>]
    are the IEEE comparisons (false on NaN), and a decimal literal denotes
    the nearest binary64 value, as in Python.  None of the operations
    used raises: the only divisor is [(y2 - y1) or 1e-6], which is never
    zero. *)

Set Warnings "-inexact-float".

Module B64.
Import PrimFloat.
Local Open Scope float_scope.

Definition point : Type := (float * float)%type.
Definition line : Type := (point * point)%type.
Definition polygon : Type := list point.

(** Python [x or d] on a float: [d] when [x == 0.0] (either zero), else
    [x]; NaN is truthy. *)
Definition float_or (x d : float) : float := if x =? 0 then d else x.

(** The test made for one polygon edge in the loop of
    [point_in_polygon]; [y1 > y] is [y < y1]. *)
Definition intersects (pt v1 v2 : point) : bool :=
  let '(x, y) := pt in
  let '(x1, y1) := v1 in
  let '(x2, y2) := v2 in
  negb (Bool.eqb (y <? y1) (y <? y2))
  && (x <? (x2 - x1) * (y - y1) / float_or (y2 - y1) 0.000001 + x1).

(** [point_in_polygon]. *)
Definition point_in_polygon (pt : point) (poly : polygon) : bool :=
  fold_left
    (fun (inside : bool) (i : nat) =>
       let v1 := nth i poly (0, 0) in
       let v2 := nth ((i + 1) mod (List.length poly)) poly (0, 0) in
       if intersects pt v1 v2 then negb inside else inside)
    (seq 0 (List.length poly)) false.

(** [line_crossed]; [v > 0] is [0 < v]. *)
Definition line_crossed (prev_point curr_point : point) (l : line)
  : option string :=
  let '((x1, y1), (x2, y2)) := l in
  let a := y1 - y2 in
  let b := x2 - x1 in
  let c := x1 * y2 - x2 * y1 in
  let prev_side := a * fst prev_point + b * snd prev_point + c in
  let curr_side := a * fst curr_point + b * snd curr_point + c in
  if (prev_side =? 0) || (curr_side =? 0) || (0 <? prev_side * curr_side)
  then None
  else
    let direction_vector :=
      (fst curr_point - fst prev_point, snd curr_point - snd prev_point) in
    let normal := (a, b) in
    let dot := fst direction_vector * fst normal
               + snd direction_vector * snd normal in
    Some (if 0 <? dot then "into_living"%string else "into_room"%string).

(** The value [line_crossed] computes for [prev_side] / [curr_side] at a
    point, and the value it computes for [dot]. *)
Definition side (l : line) (p : point) : float :=
  let '((x1, y1), (x2, y2)) := l in
  (y1 - y2) * fst p + (x2 - x1) * snd p + (x1 * y2 - x2 * y1).

Definition dot (prev_point curr_point : point) (l : line) : float :=
  let '((x1, y1), (x2, y2)) := l in
  (fst curr_point - fst prev_point) * (y1 - y2)
  + (snd curr_point - snd prev_point) * (x2 - x1).

(** The line with its two endpoints exchanged. *)
Definition reverse_line (l : line) : line := (snd l, fst l).

(** The directed edges visited by the loop of [point_in_polygon]. *)
Definition edges (poly : polygon) : list (point * point) :=
  combine poly (rot1 poly).

(** The edge test answers the same for both orientations of every edge
    of the polygon. *)
Definition orientation_free (pt : point) (poly : polygon) : bool :=
  forallb
    (fun e => Bool.eqb (intersects pt (fst e) (snd e))
                       (intersects pt (snd e) (fst e)))
    (edges poly).

(** The geometry of [GeometryConfig]'s defaults. *)
Definition default_bed_door : line := ((0.15, 0.30), (0.35, 0.30)).
Definition default_bath_door : line := ((0.65, 0.40), (0.85, 0.40)).
Definition default_polygon : polygon :=
  [(0.2, 0.35); (0.8, 0.35); (0.85, 0.9); (0.15, 0.9)].
End B64.

(** Equality of two binary64 values up to the sign of a zero: what
    [==], [<] and [>] cannot tell apart. *)
Definition zeq (x y : SpecFloat.spec_float) : Prop :=
  match x, y with
  | SpecFloat.S754_zero _, SpecFloat.S754_zero _ => True
  | _, _ => x = y
  end.

Definition feq (x y : PrimFloat.float) : Prop :=
  zeq (FloatOps.Prim2SF x) (FloatOps.Prim2SF y).

(** ** [_on_message] on raw payload bytes *)

(** [msg.payload.decode("utf-8")] raises [UnicodeDecodeError] for bytes
    that are not valid UTF-8; only [json.JSONDecodeError] is caught, so the
    handler then ends before the topic test ([None]).  [utf8] says whether
    the payload decodes. *)
Definition on_message_bytes (cfg : SpotlightConfig) (utf8 : bool)
  (topic : string) (now : Q) (c : SpotlightController) : option outcome :=
  if utf8 then Some (on_message cfg topic now c) else None.

(** * Properties *)

(** ** Comparisons *)

Lemma Qlt_bool_iff a b : Qlt_bool a b = true <-> (a < b)%Q.
Proof.
  unfold Qlt_bool. rewrite negb_true_iff.
  split; intro H.
  - apply Qnot_le_lt. intro Hle. apply Qle_bool_iff in Hle. congruence.
  - destruct (Qle_bool b a) eqn:E; [|reflexivity].
    apply Qle_bool_iff in E. exfalso. apply (Qlt_not_le _ _ H E).
Qed.

Lemma Qlt_bool_false_iff a b : Qlt_bool a b = false <-> (b <= a)%Q.
Proof.
  unfold Qlt_bool. rewrite negb_false_iff. apply Qle_bool_iff.
Qed.

#[global] Instance Qlt_bool_comp : Proper (Qeq ==> Qeq ==> eq) Qlt_bool.
Proof.
  intros a a' Ha b b' Hb. unfold Qlt_bool. now rewrite Ha, Hb.
Qed.

Lemma Qgt_bool_iff a b : Qgt_bool a b = true <-> (b < a)%Q.
Proof. apply Qlt_bool_iff. Qed.

Lemma Qgt_bool_false_iff a b : Qgt_bool a b = false <-> (a <= b)%Q.
Proof. apply Qlt_bool_false_iff. Qed.

Lemma Qge_bool_iff a b : Qge_bool a b = true <-> (b <= a)%Q.
Proof. apply Qle_bool_iff. Qed.

Lemma Qeq_bool_false_iff a b : Qeq_bool a b = false <-> ~ (a == b)%Q.
Proof.
  split.
  - apply Qeq_bool_neq.
  - intro H. destruct (Qeq_bool a b) eqn:E; [|reflexivity].
    apply Qeq_bool_iff in E. contradiction.
Qed.

(** ** Geometry: the configured doors and polygon *)

Example line_crossed_bed_down :
  line_crossed (0.25, 0.20)%Q (0.25, 0.40)%Q (bed_door default_geometry)
  = Some "into_living".
Proof. reflexivity. Qed.

Example line_crossed_bed_up :
  line_crossed (0.25, 0.40)%Q (0.25, 0.20)%Q (bed_door default_geometry)
  = Some "into_room".
Proof. reflexivity. Qed.

Example line_crossed_same_side :
  line_crossed (0.25, 0.10)%Q (0.30, 0.20)%Q (bed_door default_geometry)
  = None.
Proof. reflexivity. Qed.

Example living_room_inside :
  point_in_polygon (0.25, 0.40)%Q (living_room_polygon default_geometry)
  = true.
Proof. reflexivity. Qed.

Example living_room_outside :
  point_in_polygon (0.25, 0.20)%Q (living_room_polygon default_geometry)
  = false.
Proof. reflexivity. Qed.

(** ** Geometry: [line_crossed] *)

(** ** Geometry: [point_in_polygon] *)

Section Combine.
Context {A B : Type}.

Lemma combine_snoc (a : list A) (b : list B) (x : A) (y : B) :
  List.length a = List.length b ->
  combine (a ++ [x]) (b ++ [y]) = combine a b ++ [(x, y)].
Proof.
  revert b. induction a as [|a0 a IH]; intros [|b0 b] Hlen;
    cbn in *; try discriminate; [reflexivity|].
  f_equal. apply IH. now injection Hlen.
Qed.

Lemma combine_rev (a : list A) (b : list B) :
  List.length a = List.length b ->
  combine (rev a) (rev b) = rev (combine a b).
Proof.
  revert b. induction a as [|a0 a IH]; intros [|b0 b] Hlen;
    cbn in *; try discriminate; [reflexivity|].
  injection Hlen as Hlen.
  rewrite combine_snoc by (now rewrite !length_rev).
  now rewrite IH.
Qed.

Lemma combine_rot1 (a : list A) (b : list B) :
  List.length a = List.length b ->
  combine (rot1 a) (rot1 b) = rot1 (combine a b).
Proof.
  destruct a as [|a0 a], b as [|b0 b]; cbn; intro Hlen;
    try discriminate; [reflexivity|].
  apply combine_snoc. now injection Hlen.
Qed.

Lemma combine_swap (a : list A) (b : list B) :
  map swap (combine a b) = combine b a.
Proof.
  revert b. induction a as [|a0 a IH]; intros [|b0 b]; cbn;
    try reflexivity.
  now rewrite IH.
Qed.

(** [combine] read through indices. *)
Lemma combine_as_map_seq (a : list A) (b : list B) (da : A) (db : B) :
  List.length a = List.length b ->
  combine a b
  = map (fun i => (nth i a da, nth i b db)) (seq 0 (List.length a)).
Proof.
  revert b. induction a as [|a0 a IH]; intros [|b0 b] Hlen;
    cbn in *; try discriminate; [reflexivity|].
  injection Hlen as Hlen. f_equal.
  rewrite <- seq_shift, map_map. now apply IH.
Qed.
End Combine.

Section Rotation.
Context {A : Type}.

Lemma length_rot1 (l : list A) : List.length (rot1 l) = List.length l.
Proof.
  destruct l as [|v rest]; cbn; [reflexivity|].
  rewrite length_app. cbn. lia.
Qed.

Lemma Permutation_rot1 (l : list A) : Permutation (rot1 l) l.
Proof.
  destruct l as [|v rest]; cbn; [constructor|].
  symmetry. apply Permutation_cons_append.
Qed.

(** [rot1 l] at index [i] is [l] at index [(i + 1) % len(l)]. *)
Lemma nth_rot1 (l : list A) (d : A) (i : nat) :
  (i < List.length l)%nat ->
  nth i (rot1 l) d = nth ((i + 1) mod List.length l) l d.
Proof.
  destruct l as [|v rest]; cbn [List.length rot1]; intro Hi; [lia|].
  replace (i + 1)%nat with (S i) by lia.
  destruct (Nat.eq_dec i (List.length rest)) as [->|Hne].
  - rewrite Nat.Div0.mod_same.
    rewrite app_nth2 by lia. now rewrite Nat.sub_diag.
  - rewrite Nat.mod_small by lia.
    rewrite app_nth1 by lia. reflexivity.
Qed.

End Rotation.

Section Parity.
Context {A : Type}.

Lemma parity_cons (f : A -> bool) (a : A) (l : list A) :
  parity f (a :: l) = xorb (f a) (parity f l).
Proof. reflexivity. Qed.

Lemma parity_Permutation (f : A -> bool) (l l' : list A) :
  Permutation l l' -> parity f l = parity f l'.
Proof.
  induction 1 as [|x l l' _ IH|x y l|l l' l'' _ IH1 _ IH2].
  - reflexivity.
  - now rewrite !parity_cons, IH.
  - rewrite !parity_cons. now destruct (f x), (f y), (parity f l).
  - congruence.
Qed.

Lemma parity_map {B : Type} (g : B -> A) (f : A -> bool) (l : list B) :
  parity f (map g l) = parity (fun b => f (g b)) l.
Proof.
  induction l as [|b l IH]; [reflexivity|].
  cbn [map]. now rewrite !parity_cons, IH.
Qed.

Lemma parity_ext (f g : A -> bool) (l : list A) :
  (forall a, f a = g a) -> parity f l = parity g l.
Proof.
  intro H. induction l as [|a l IH]; [reflexivity|].
  now rewrite !parity_cons, H, IH.
Qed.

(** The toggling loop computes the parity. *)
Lemma toggle_fold_parity (f : A -> bool) (l : list A) (acc : bool) :
  fold_left (fun inside e => if f e then negb inside else inside) l acc
  = xorb acc (parity f l).
Proof.
  revert acc. induction l as [|a l IH]; intro acc.
  - cbn. now destruct acc.
  - cbn [fold_left]. rewrite IH, parity_cons.
    now destruct (f a), acc, (parity f l).
Qed.
End Parity.

Section FoldLeft.
Context {A B : Type}.

Lemma fold_left_ext_in (f g : A -> B -> A) (l : list B) (a : A) :
  (forall x acc, In x l -> f acc x = g acc x) ->
  fold_left f l a = fold_left g l a.
Proof.
  revert a. induction l as [|b l IH]; intros a H; [reflexivity|].
  cbn [fold_left]. rewrite H by (now left).
  apply IH. intros x acc Hx. apply H. now right.
Qed.
End FoldLeft.

Section PointInPolygon.
Variable pt : point.

Let crosses (e : point * point) : bool := intersects pt (fst e) (snd e).

(** The index loop of the source is the parity over [edges]. *)
Lemma point_in_polygon_edges (poly : polygon) :
  point_in_polygon pt poly = parity crosses (edges poly).
Proof.
  unfold point_in_polygon, edges.
  rewrite (combine_as_map_seq poly (rot1 poly) (0, 0)%Q (0, 0)%Q)
    by (now rewrite length_rot1).
  rewrite parity_map.
  transitivity
    (fold_left
       (fun inside i =>
          if crosses (nth i poly (0, 0)%Q, nth i (rot1 poly) (0, 0)%Q)
          then negb inside else inside)
       (seq 0 (List.length poly)) false).
  - apply fold_left_ext_in. intros i inside Hi.
    apply in_seq in Hi. rewrite nth_rot1 by lia. reflexivity.
  - now rewrite toggle_fold_parity.
Qed.

Lemma edges_rot1 (poly : polygon) : edges (rot1 poly) = rot1 (edges poly).
Proof.
  unfold edges. apply combine_rot1. now rewrite length_rot1.
Qed.

Lemma point_in_polygon_rot1 (poly : polygon) :
  point_in_polygon pt (rot1 poly) = point_in_polygon pt poly.
Proof.
  rewrite !point_in_polygon_edges, edges_rot1.
  apply parity_Permutation, Permutation_rot1.
Qed.

End PointInPolygon.

(** ** Presence sub-machine *)

(** C6, as stated, fails.  After presence was lost by the hold timer,
    [_presence_exit_start] still holds the time the exit began (110); the
    next call with a centroid inside the polygon starts the enter timer
    and returns with the exit timer unchanged, not 0. *)
Lemma update_presence_in_polygon_exit_start_not_reset :
  let s := run default_config presence_lost_run init_service in
  let c := (0.5, 0.5)%Q in
  point_in_polygon c (living_room_polygon (geometry default_config)) = true
  /\ presence_events (published s) = [(true, 0.9%Q); (false, 0.8%Q)]
  /\ presence_exit_start
       (update_presence default_config (Some c) 113.1 113.1 s) = 110%Q
  /\ ~ (presence_exit_start
          (update_presence default_config (Some c) 113.1 113.1 s) == 0)%Q.
Proof.
  cbv zeta. split; [|split; [|split]].
  - vm_compute. reflexivity.
  - vm_compute. reflexivity.
  - vm_compute. reflexivity.
  - intro H. vm_compute in H. discriminate H.
Qed.

(** C6, amended.  When [_update_presence] returns from a call with a
    centroid inside the polygon, the exit timer is 0 if the presence state
    is true (it was true before, or has just been confirmed), and is the
    value it had before the call if the presence state is still false. *)
Theorem update_presence_in_polygon_exit_start
  (cfg : FusionConfig) (c : point) (ts now_pub : Q) (s : service) :
  point_in_polygon c (living_room_polygon (geometry cfg)) = true ->
  let s' := update_presence cfg (Some c) ts now_pub s in
  (last_presence_state s' = true -> presence_exit_start s' = 0%Q)
  /\ (last_presence_state s' = false ->
      presence_exit_start s' = presence_exit_start s).
Proof.
  intros Hin. unfold update_presence. rewrite Hin.
  destruct (last_presence_state s) eqn:Hp; cbn [negb].
  - cbn. rewrite Hp. split; [reflexivity | discriminate].
  - destruct (Qeq_bool (presence_enter_time s) 0).
    + cbn. rewrite Hp. split; [discriminate | reflexivity].
    + destruct (Qge_bool (ts - presence_enter_time s)
                         (presence_confirm_seconds cfg)).
      * cbn. split; [reflexivity | discriminate].
      * cbn. rewrite Hp. split; [discriminate | reflexivity].
Qed.

Lemma update_presence_in_polygon_exit_start_witness :
  let s := run default_config presence_lost_run init_service in
  let s' :=
    update_presence default_config (Some (0.5, 0.5)%Q) 113.1 113.1 s in
  (last_presence_state s' = true -> presence_exit_start s' = 0%Q)
  /\ (last_presence_state s' = false ->
      presence_exit_start s' = presence_exit_start s).
Proof.
  apply (update_presence_in_polygon_exit_start
           default_config (0.5, 0.5)%Q 113.1 113.1
           (run default_config presence_lost_run init_service)).
  vm_compute. reflexivity.
Defined.

(** ** What one step of the run loop publishes *)

Section StepLemmas.
Variable cfg : FusionConfig.

Lemma update_presence_cases (c : option point) (ts now_pub : Q)
  (s : service) :
  let s' := update_presence cfg c ts now_pub s in
  last_centroid s' = last_centroid s
  /\ last_cross_time s' = last_cross_time s
  /\ pir_last_on s' = pir_last_on s
  /\ ((published s' = published s
       /\ last_presence_state s' = last_presence_state s)
      \/ (published s'
          = published s
            ++ [presence_pub (negb (last_presence_state s)) now_pub]
          /\ last_presence_state s' = negb (last_presence_state s))).
Proof.
  unfold update_presence.
  destruct (match c with
            | Some c0 =>
                point_in_polygon c0 (living_room_polygon (geometry cfg))
            | None => false
            end);
    cbn [set_presence_enter_time last_presence_state presence_exit_start];
    destruct (last_presence_state s) eqn:Hp; cbn [negb];
    repeat match goal with
           | |- context [if ?b then _ else _] => destruct b
           end;
    cbn; rewrite ?Hp; repeat split; auto.
Qed.

Lemma check_doors_cases (prev c : point) (ts : Q)
  (doors : list (door_name * line)) (det : detection) (s : service) :
  check_doors cfg prev c ts doors det s = (det, s)
  \/ exists door dir,
      str_truthy (Some dir) = true
      /\ Qlt_bool (ts - door_get (last_cross_time s) door)
                  (detection_cooldown cfg) = false
      /\ check_doors cfg prev c ts doors det s
         = ({| det_centroid := det_centroid det; det_ts := det_ts det;
               det_door := Some door; det_direction := Some dir |},
            set_last_cross_time (door_set (last_cross_time s) door ts) s).
Proof.
  induction doors as [|[door l] rest IH]; cbn [check_doors];
    [now left|].
  destruct (line_crossed prev c l) as [dir|] eqn:Hdir.
  2:{ cbn. exact IH. }
  destruct (str_truthy (Some dir)) eqn:Ht; cbn [negb]; [|exact IH].
  destruct (Qlt_bool (ts - door_get (last_cross_time s) door)
                     (detection_cooldown cfg)) eqn:Hcd; [exact IH|].
  right. exists door, dir. auto.
Qed.

Lemma handle_detection_none (det : detection) (s : service) :
  det_door det = None -> handle_detection cfg det s = s.
Proof. unfold handle_detection. now intros ->. Qed.

Lemma handle_detection_door (det : detection) (s : service)
  (door : door_name) (dir : string) :
  det_door det = Some door ->
  det_direction det = Some dir ->
  str_truthy (Some dir) = true ->
  exists conf,
    handle_detection cfg det s
    = publish (crossing_topic door dir)
              (CrossingPayload (det_ts det) dir (det_centroid det) conf) s.
Proof.
  intros Hdoor Hdir Ht. unfold handle_detection.
  rewrite Hdoor, Hdir, Ht.
  destruct door; cbn; eexists; reflexivity.
Qed.

(** A frame publishes what [_update_presence] publishes, followed by at
    most one crossing event; the crossing event is for a door whose
    cooldown has passed, and [_last_cross_time] is updated for exactly
    that door. *)
Lemma step_frame_cases (f : frame) (s : service) :
  let s' := step cfg s (Frame f) in
  let s1 := update_presence cfg (frame_centroid f)
              (clock_update_presence f) (clock_publish_presence f) s in
  let ts := clock_process_frame f in
  (published s' = published s1
   /\ last_cross_time s' = last_cross_time s
   /\ last_presence_state s' = last_presence_state s1)
  \/ exists door dir c conf,
      Qlt_bool (ts - door_get (last_cross_time s) door)
               (detection_cooldown cfg) = false
      /\ published s'
         = published s1
           ++ [{| pub_topic := crossing_topic door dir;
                  pub_payload := CrossingPayload ts dir c conf |}]
      /\ last_cross_time s' = door_set (last_cross_time s) door ts
      /\ last_presence_state s' = last_presence_state s1.
Proof.
  cbv zeta. unfold step, process_frame.
  destruct (frame_centroid f) as [c|].
  2:{ left. cbn [fst snd].
      pose proof (update_presence_cases None (clock_update_presence f)
                    (clock_publish_presence f) s) as (_ & Hx & _ & _).
      auto. }
  pose proof (update_presence_cases (Some c) (clock_update_presence f)
                (clock_publish_presence f) s) as (Hc & Hx & _ & _).
  set (s1 := update_presence cfg (Some c) (clock_update_presence f)
               (clock_publish_presence f) s) in *.
  destruct (last_centroid s1) as [prev|]; [|left; auto].
  match goal with
  | |- context [check_doors cfg prev c ?ts ?doors ?det ?st] =>
      destruct (check_doors_cases prev c ts doors det st)
        as [E | (door & dir & Ht & Hcd & E)]; rewrite E
  end.
  - left. rewrite handle_detection_none by reflexivity. auto.
  - right.
    match goal with
    | |- context [handle_detection cfg ?det ?st] =>
        destruct (handle_detection_door det st door dir
                    eq_refl eq_refl Ht) as [conf Hh]; rewrite Hh
    end.
    exists door, dir, c, conf.
    cbn [last_cross_time set_last_centroid] in Hcd. rewrite Hx in Hcd.
    cbn [published publish set_last_cross_time set_last_centroid
         last_cross_time last_presence_state det_ts det_centroid].
    rewrite Hx. auto.
Qed.

Lemma step_pir_cases (m : pir_message) (s : service) :
  let s' := step cfg s (Pir m) in
  published s' = published s
  /\ last_cross_time s' = last_cross_time s
  /\ last_presence_state s' = last_presence_state s.
Proof.
  cbn. unfold handle_pir_event.
  destruct (pir_state m) as [st|]; [|auto].
  destruct (String.eqb st "ON"); auto.
Qed.
End StepLemmas.

(** ** Executions *)

Section Adjacent.
Context {A : Type}.

Lemma adjacent_snoc (l : list A) (z x y : A) :
  adjacent (l ++ [z]) x y ->
  adjacent l x y \/ ((exists l0, l = l0 ++ [x]) /\ y = z).
Proof.
  intros (l1 & l2 & E).
  destruct l2 as [|w l2 _] using rev_ind.
  - right.
    change (l1 ++ [x; y]) with (l1 ++ [x] ++ [y]) in E.
    rewrite app_assoc in E. apply app_inj_tail in E as [E1 E2].
    split; [now exists l1 | now symmetry].
  - left.
    change (l1 ++ x :: y :: l2 ++ [w])
      with (l1 ++ (x :: y :: l2) ++ [w]) in E.
    rewrite app_assoc in E. apply app_inj_tail in E as [E1 _].
    now exists l1, l2.
Qed.

Lemma app_singleton_inj (l l0 : list A) (z e : A) :
  l ++ [z] = l0 ++ [e] -> l = l0 /\ z = e.
Proof. apply app_inj_tail. Qed.
End Adjacent.

Section Runs.
Variable cfg : FusionConfig.

(** A property of the initial state that every step of the loop keeps
    holds after every execution. *)
Lemma run_invariant (P : service -> Prop) :
  (forall s i, P s -> P (step cfg s i)) ->
  forall inputs s, P s -> P (run cfg inputs s).
Proof.
  intros Hstep inputs. unfold run.
  induction inputs as [|i inputs IH]; intros s Hs; [exact Hs|].
  cbn [fold_left]. apply IH, Hstep, Hs.
Qed.

Lemma presence_events_app (l1 l2 : list publication) :
  presence_events (l1 ++ l2) = presence_events l1 ++ presence_events l2.
Proof.
  induction l1 as [|[topic [ts dir c conf|present conf ts]] l1 IH];
    cbn [app presence_events]; [reflexivity | exact IH |].
  destruct (String.eqb topic mqtt_topics.vision_state); cbn [app];
    now rewrite IH.
Qed.

Lemma crossing_ts_app (d : door_name) (l1 l2 : list publication) :
  crossing_ts d (l1 ++ l2) = crossing_ts d l1 ++ crossing_ts d l2.
Proof.
  induction l1 as [|[topic [ts dir c conf|present conf ts]] l1 IH];
    cbn [app crossing_ts]; [reflexivity | | exact IH].
  destruct (door_of_topic topic) as [d'|]; [|exact IH].
  destruct (door_eqb d d'); cbn [app]; now rewrite IH.
Qed.

Lemma door_of_crossing_topic (door : door_name) (dir : string) :
  door_of_topic (crossing_topic door dir) = Some door.
Proof.
  unfold crossing_topic.
  destruct (String.eqb dir "into_living"), door; reflexivity.
Qed.

(** The presence events and the presence state after one step. *)
Lemma step_presence (s : service) (i : input) :
  let s' := step cfg s i in
  (presence_events (published s') = presence_events (published s)
   /\ last_presence_state s' = last_presence_state s)
  \/ (presence_events (published s')
      = presence_events (published s)
        ++ [(negb (last_presence_state s),
             if negb (last_presence_state s) then 0.9 else 0.8)%Q]
      /\ last_presence_state s' = negb (last_presence_state s)).
Proof.
  destruct i as [m|f].
  - left. pose proof (step_pir_cases cfg m s) as (Hp & _ & Hs).
    cbv zeta in *. now rewrite Hp, Hs.
  - pose proof (update_presence_cases cfg (frame_centroid f)
                  (clock_update_presence f) (clock_publish_presence f) s)
      as (_ & _ & _ & Hup).
    pose proof (step_frame_cases cfg f s) as Hstep.
    cbv zeta in *.
    set (s1 := update_presence cfg (frame_centroid f)
                 (clock_update_presence f) (clock_publish_presence f) s)
      in *.
    assert (Hev : presence_events (published (step cfg s (Frame f)))
                  = presence_events (published s1)
                  /\ last_presence_state (step cfg s (Frame f))
                     = last_presence_state s1).
    { destruct Hstep as [(Hp & _ & Hs) | (door & dir & c & conf & _ & Hp & _ & Hs)];
        rewrite Hp, Hs; [auto|].
      rewrite presence_events_app. cbn [presence_events].
      now rewrite app_nil_r. }
    destruct Hev as [Hev Hst]. rewrite Hev, Hst.
    destruct Hup as [[Hp Hs] | [Hp Hs]]; rewrite Hp, Hs; [now left|].
    right. rewrite presence_events_app. now split.
Qed.
End Runs.

Lemma presence_inv_init : presence_inv init_service.
Proof.
  unfold presence_inv. cbn. repeat split.
  - intros e1 e2 (l1 & l2 & E). now destruct l1.
  - discriminate.
  - intros l0 e E. now destruct l0.
  - contradiction.
Qed.

Lemma presence_inv_step (cfg : FusionConfig) (s : service) (i : input) :
  presence_inv s -> presence_inv (step cfg s i).
Proof.
  intros (Hadj & Hhd & Hlast & Hnil & Hconf).
  unfold presence_inv.
  destruct (step_presence cfg s i) as [[Hev Hst] | [Hev Hst]];
    cbv zeta in *; rewrite Hev, Hst; [repeat split; assumption|].
  set (evs := presence_events (published s)) in *.
  set (b := last_presence_state s) in *.
  repeat split.
  - intros e1 e2 Ha. apply adjacent_snoc in Ha as [Ha | [[l0 E] ->]].
    + now apply Hadj.
    + apply Hlast in E. cbn [fst]. rewrite E. now destruct b.
  - intros e rest E. destruct evs as [|e0 evs0] eqn:Eevs.
    + injection E as <- _. cbn [fst]. now rewrite Hnil.
    + injection E as <- _. now apply (Hhd e0 evs0).
  - intros l0 e E. apply app_singleton_inj in E as [_ <-]. reflexivity.
  - intro E. now destruct evs.
  - intros e He. apply in_app_or in He as [He | [<- | []]]; [now apply Hconf|].
    reflexivity.
Qed.

(** C5.  In every execution from the initial state, consecutive presence
    events published on the presence topic carry different [present]
    values, the first one carries [true], and each carries [conf] 0.9 when
    [present] is true and 0.8 when it is false. *)
Theorem presence_events_alternate
  (cfg : FusionConfig) (inputs : list input) :
  let evs := presence_events (published (run cfg inputs init_service)) in
  (forall e1 e2, adjacent evs e1 e2 -> fst e1 <> fst e2)
  /\ (forall e rest, evs = e :: rest -> fst e = true)
  /\ (forall e, In e evs -> snd e = if fst e then 0.9 else 0.8)%Q.
Proof.
  pose proof (run_invariant cfg presence_inv (presence_inv_step cfg)
                inputs init_service presence_inv_init)
    as (Hadj & Hhd & _ & _ & Hconf).
  cbv zeta. auto.
Qed.

(** ** Crossing cooldown *)

Section Cooldown.
Variable cfg : FusionConfig.
Variable d : door_name.

Lemma door_get_set (m : door_dict) (door : door_name) (v : Q) :
  door_get (door_set m door v) d
  = if door_eqb d door then v else door_get m d.
Proof. now destruct d, door. Qed.

Lemma door_eqb_true (door : door_name) : door_eqb d door = true -> d = door.
Proof. now destruct d, door. Qed.

(** The crossing events of door [d] and [_last_cross_time[d]] after
    one step: nothing changes, or one event is appended whose timestamp
    is at least the cooldown after the stored time and becomes the new
    stored time. *)
Lemma step_crossing (s : service) (i : input) :
  let s' := step cfg s i in
  (crossing_ts d (published s') = crossing_ts d (published s)
   /\ door_get (last_cross_time s') d = door_get (last_cross_time s) d)
  \/ (exists f, i = Frame f
      /\ Qlt_bool (clock_process_frame f - door_get (last_cross_time s) d)
                  (detection_cooldown cfg) = false
      /\ crossing_ts d (published s')
         = crossing_ts d (published s) ++ [clock_process_frame f]
      /\ door_get (last_cross_time s') d = clock_process_frame f).
Proof.
  destruct i as [m|f].
  - left. pose proof (step_pir_cases cfg m s) as (Hp & Hx & _).
    cbv zeta in *. now rewrite Hp, Hx.
  - pose proof (update_presence_cases cfg (frame_centroid f)
                  (clock_update_presence f) (clock_publish_presence f) s)
      as (_ & _ & _ & Hup).
    pose proof (step_frame_cases cfg f s) as Hstep.
    cbv zeta in *.
    set (s1 := update_presence cfg (frame_centroid f)
                 (clock_update_presence f) (clock_publish_presence f) s)
      in *.
    assert (H1 : crossing_ts d (published s1)
                 = crossing_ts d (published s)).
    { destruct Hup as [[Hp _] | [Hp _]]; rewrite Hp; [reflexivity|].
      rewrite crossing_ts_app. cbn [crossing_ts presence_pub pub_topic
                                    pub_payload].
      now rewrite app_nil_r. }
    destruct Hstep as [(Hp & Hx & _)
                      | (door & dir & c & conf & Hcd & Hp & Hx & _)];
      rewrite Hp, Hx.
    + left. now rewrite H1.
    + rewrite crossing_ts_app, H1, door_get_set.
      cbn [crossing_ts]. rewrite door_of_crossing_topic.
      destruct (door_eqb d door) eqn:Ed.
      * right. exists f. apply door_eqb_true in Ed. subst door. auto.
      * left. now rewrite app_nil_r.
Qed.

Lemma cooldown_inv_init : cooldown_inv cfg d init_service.
Proof.
  unfold cooldown_inv. cbn. split.
  - intros t1 t2 (l1 & l2 & E). now destruct l1.
  - intros l0 t E. now destruct l0.
Qed.

Lemma cooldown_inv_step (s : service) (i : input) :
  cooldown_inv cfg d s -> cooldown_inv cfg d (step cfg s i).
Proof.
  intros [Hgap Hlast]. unfold cooldown_inv.
  destruct (step_crossing s i) as [[Hev Hx] | (f & _ & Hcd & Hev & Hx)];
    cbv zeta in *; rewrite Hev, Hx; [split; assumption|].
  apply Qlt_bool_false_iff in Hcd.
  split.
  - intros t1 t2 Ha. apply adjacent_snoc in Ha as [Ha | [[l0 E] ->]].
    + now apply Hgap.
    + apply Hlast in E. now rewrite E in Hcd.
  - intros l0 t E. now apply app_singleton_inj in E as [_ <-].
Qed.

Lemma cooldown_inv_run (inputs : list input) :
  cooldown_inv cfg d (run cfg inputs init_service).
Proof.
  apply run_invariant; [apply cooldown_inv_step | apply cooldown_inv_init].
Qed.
End Cooldown.

(** C4.  In every execution from the initial state and for each door [d]:
    two crossing events published one after the other for [d] have
    timestamps at least [detection_cooldown] apart; and when the previous
    published crossing of [d] was at [t_prev], a frame processed less than
    [detection_cooldown] after [t_prev] publishes no crossing for [d] and
    leaves [_last_cross_time[d]] as it was. *)
Theorem crossing_cooldown
  (cfg : FusionConfig) (inputs : list input) (d : door_name) :
  let s := run cfg inputs init_service in
  (forall t1 t2,
      adjacent (crossing_ts d (published s)) t1 t2 ->
      detection_cooldown cfg <= t2 - t1)%Q
  /\ (forall (f : frame) (l0 : list Q) (t_prev : Q),
         crossing_ts d (published s) = l0 ++ [t_prev] ->
         (clock_process_frame f - t_prev < detection_cooldown cfg)%Q ->
         let s' := step cfg s (Frame f) in
         crossing_ts d (published s') = crossing_ts d (published s)
         /\ door_get (last_cross_time s') d = door_get (last_cross_time s) d).
Proof.
  cbv zeta.
  destruct (cooldown_inv_run cfg d inputs) as [Hgap Hlast].
  split; [exact Hgap|].
  intros f l0 t_prev E Hlt.
  apply Hlast in E.
  destruct (step_crossing cfg d (run cfg inputs init_service) (Frame f))
    as [H | (f' & Ef & Hcd & _)]; [exact H|].
  injection Ef as <-. rewrite E in Hcd.
  apply Qlt_bool_false_iff in Hcd. exfalso.
  apply (Qlt_not_le _ _ Hlt Hcd).
Qed.

Lemma crossing_cooldown_witness :
  crossing_ts bed (published (run default_config three_crossings_run
                                init_service))
  = [100.1; 101.2]%Q
  /\ (detection_cooldown default_config <= 101.2 - 100.1)%Q.
Proof.
  split; [vm_compute; reflexivity|].
  apply (proj1 (crossing_cooldown default_config three_crossings_run bed)).
  exists [], []. vm_compute. reflexivity.
Defined.

(** ** End-to-end scenario 1 *)

(** C1, as stated, fails.  With the clock reading 0 and 0.1 at the two
    frames, the crossing of the bedroom line is found, but
    [ts - _last_cross_time["bed"]] is [0.1 - 0.0], below the cooldown, so
    nothing is published. *)
Lemma scenario1_literal_times_publish_nothing :
  line_crossed (0.25, 0.20)%Q (0.25, 0.40)%Q (bed_door default_geometry)
  = Some "into_living"
  /\ published (run default_config (scenario1 0 0.1) init_service) = [].
Proof. split; vm_compute; reflexivity. Qed.

Section CrossingFrame.
Variable cfg : FusionConfig.

(** The enter timer is started: inside the polygon, not present, timer
    unset. *)
Lemma update_presence_starts_enter_timer
  (c : point) (ts now_pub : Q) (s : service) :
  point_in_polygon c (living_room_polygon (geometry cfg)) = true ->
  last_presence_state s = false ->
  Qeq_bool (presence_enter_time s) 0 = true ->
  update_presence cfg (Some c) ts now_pub s = set_presence_enter_time ts s.
Proof.
  intros Hin Hp He. unfold update_presence. now rewrite Hin, Hp, He.
Qed.

(** The first door of the loop is crossed and its cooldown has passed:
    the loop stops there. *)
Lemma check_doors_first_accepted
  (prev c : point) (ts : Q) (door : door_name) (l : line) (dir : string)
  (rest : list (door_name * line)) (det : detection) (s : service) :
  line_crossed prev c l = Some dir ->
  str_truthy (Some dir) = true ->
  Qlt_bool (ts - door_get (last_cross_time s) door)
           (detection_cooldown cfg) = false ->
  check_doors cfg prev c ts ((door, l) :: rest) det s
  = ({| det_centroid := det_centroid det; det_ts := det_ts det;
        det_door := Some door; det_direction := Some dir |},
     set_last_cross_time (door_set (last_cross_time s) door ts) s).
Proof.
  intros Hdir Ht Hcd. cbn [check_doors]. now rewrite Hdir, Ht, Hcd.
Qed.

(** A frame that starts the enter timer and crosses the bedroom line
    into the living room, with the cooldown passed and no recent
    bedroom PIR pulse, publishes exactly the bedroom "out" event with
    confidence 0.70. *)
Lemma step_bed_crossing_into_living
  (prev c : point) (t : Q) (s : service) :
  point_in_polygon c (living_room_polygon (geometry cfg)) = true ->
  last_presence_state s = false ->
  Qeq_bool (presence_enter_time s) 0 = true ->
  last_centroid s = Some prev ->
  line_crossed prev c (bed_door (geometry cfg)) = Some "into_living" ->
  Qlt_bool (t - door_get (last_cross_time s) bed)
           (detection_cooldown cfg) = false ->
  Qle_bool (t - zone_get (pir_last_on s) bedroom)
           (pir_cross_window cfg) = false ->
  published (step cfg s (Frame (frame_at (Some c) t)))
  = published s
    ++ [{| pub_topic := mqtt_topics.bed_event_out;
           pub_payload := CrossingPayload t "into_living" c 0.7 |}].
Proof.
  intros Hin Hp He Hprev Hdir Hcd Hpir.
  unfold step, process_frame.
  cbn [frame_at frame_centroid clock_update_presence
       clock_publish_presence clock_process_frame].
  rewrite update_presence_starts_enter_timer by assumption.
  cbn [last_centroid set_presence_enter_time]. rewrite Hprev.
  rewrite (check_doors_first_accepted prev c t bed _ "into_living")
    by (cbn [last_cross_time set_last_centroid]; auto).
  unfold handle_detection.
  cbn [det_door det_direction det_ts det_centroid door_str str_truthy
       String.eqb Ascii.eqb Bool.eqb negb orb door_eqb pir_last_on
       set_last_cross_time set_last_centroid published publish].
  cbn [set_presence_enter_time pir_last_on published].
  now rewrite Hpir.
Qed.
End CrossingFrame.

(** C1, amended.  With the wall clock reading [T0] at the first frame
    and [T0 + 0.1] at the second, for any [T0 > 0.9] (epoch seconds are of
    the order of 10^9), the execution publishes exactly one event: on
    [events/person/bedroom/out], with [dir] ["into_living"] and [conf]
    0.70. *)
Theorem scenario1_wall_clock (T0 : Q) :
  (0.9 < T0)%Q ->
  published (run default_config (scenario1 T0 (T0 + 0.1)) init_service)
  = [{| pub_topic := "events/person/bedroom/out";
        pub_payload :=
          CrossingPayload (T0 + 0.1) "into_living" (0.25, 0.40)%Q 0.7 |}].
Proof.
  intro HT.
  unfold scenario1, run. cbn [fold_left].
  set (s1 := step default_config init_service _).
  rewrite (step_bed_crossing_into_living default_config (0.25, 0.20)%Q).
  - reflexivity.
  - reflexivity.
  - reflexivity.
  - reflexivity.
  - reflexivity.
  - reflexivity.
  - apply Qlt_bool_false_iff.
    change (door_get (last_cross_time s1) bed) with 0.0%Q.
    change (detection_cooldown default_config) with 1.0%Q. lra.
  - change (zone_get (pir_last_on s1) bedroom) with 0.0%Q.
    change (pir_cross_window default_config) with 1.0%Q.
    destruct (Qle_bool (T0 + 0.1 - 0.0) 1.0) eqn:E; [|reflexivity].
    apply Qle_bool_iff in E. lra.
Qed.

Lemma scenario1_wall_clock_witness :
  published (run default_config (scenario1 100 (100 + 0.1)) init_service)
  = [{| pub_topic := "events/person/bedroom/out";
        pub_payload :=
          CrossingPayload (100 + 0.1) "into_living" (0.25, 0.40)%Q 0.7 |}].
Proof.
  apply (scenario1_wall_clock 100). vm_compute. reflexivity.
Defined.

(** Scenario 2 of the specification on the wall clock: the same frames
    after a bedroom PIR pulse 0.2 s before the first one raise the
    confidence to 0.85. *)
Example scenario2_pir_recent :
  published
    (run default_config
       (Pir {| pir_topic := "sensors/door/bedroom/pir";
               pir_state := Some "ON"; pir_ts := Some 99.8%Q;
               pir_clock := 99.8 |}
        :: scenario1 100 100.1)
       init_service)
  = [{| pub_topic := "events/person/bedroom/out";
        pub_payload :=
          CrossingPayload 100.1 "into_living" (0.25, 0.40)%Q 0.85 |}].
Proof. vm_compute. reflexivity. Qed.

(** ** Spotlight hardware: clamping *)

Section Clamp.

Lemma py_min_le_l (a b : Q) : (py_min a b <= a)%Q.
Proof.
  unfold py_min. destruct (Qlt_bool b a) eqn:E.
  - apply Qlt_bool_iff in E. lra.
  - lra.
Qed.

Lemma py_max_ge_l (a b : Q) : (a <= py_max a b)%Q.
Proof.
  unfold py_max, Qgt_bool. destruct (Qlt_bool a b) eqn:E.
  - apply Qlt_bool_iff in E. lra.
  - lra.
Qed.

Lemma py_max_le (a b c : Q) : (a <= c -> b <= c -> py_max a b <= c)%Q.
Proof. unfold py_max. now destruct (Qgt_bool b a). Qed.

Lemma clamp_angle_range (cfg : SpotlightConfig) (angle : Q) :
  (servo_min_angle cfg <= servo_max_angle cfg ->
   servo_min_angle cfg <= clamp_angle cfg angle
   /\ clamp_angle cfg angle <= servo_max_angle cfg)%Q.
Proof.
  intro H. unfold clamp_angle. split.
  - apply py_max_ge_l.
  - apply py_max_le; [exact H | apply py_min_le_l].
Qed.

Lemma clamp_brightness_range (value : Q) :
  (0 <= py_max 0.0 (py_min 1.0 value)
   /\ py_max 0.0 (py_min 1.0 value) <= 1)%Q.
Proof.
  split.
  - pose proof (py_max_ge_l 0.0 (py_min 1.0 value)). lra.
  - apply py_max_le; [lra|].
    pose proof (py_min_le_l 1.0 value). lra.
Qed.
End Clamp.

(** C9.  With [servo_min_angle <= servo_max_angle], [set_orientation]
    assigns to the servos (outside mock mode, where nothing is assigned)
    a pan and a tilt angle inside [[servo_min_angle, servo_max_angle]],
    whatever its arguments; [set_brightness] assigns to the LED a value
    inside [[0, 1]], whatever its argument. *)
Theorem hardware_writes_clamped
  (cfg : SpotlightConfig) (pan tilt value : Q) (hw : SpotlightHardware) :
  (servo_min_angle cfg <= servo_max_angle cfg)%Q ->
  (exists p t : Q,
      writes (set_orientation cfg pan tilt hw)
      = writes hw ++ (if mock hw then [] else [PanAngle p; TiltAngle t])
      /\ (servo_min_angle cfg <= p /\ p <= servo_max_angle cfg)%Q
      /\ (servo_min_angle cfg <= t /\ t <= servo_max_angle cfg)%Q)
  /\ (exists v : Q,
         writes (set_brightness value hw)
         = writes hw ++ (if mock hw then [] else [LedValue v])
         /\ (0 <= v /\ v <= 1)%Q).
Proof.
  intro Hrange. split.
  - exists (clamp_angle cfg pan), (clamp_angle cfg tilt).
    split; [|split; now apply clamp_angle_range].
    unfold set_orientation. destruct (mock hw); cbn [writes];
      [now rewrite app_nil_r | reflexivity].
  - exists (py_max 0.0 (py_min 1.0 value)).
    split; [|apply clamp_brightness_range].
    unfold set_brightness. destruct (mock hw); cbn [writes];
      [now rewrite app_nil_r | reflexivity].
Qed.

Lemma hardware_writes_clamped_witness :
  let hw := {| mock := false; writes := [] |} in
  (exists p t : Q,
      writes (set_orientation default_spotlight 120 (-200) hw)
      = [PanAngle p; TiltAngle t]
      /\ (-90.0 <= p /\ p <= 90.0)%Q
      /\ (-90.0 <= t /\ t <= 90.0)%Q)
  /\ (exists v : Q,
         writes (set_brightness 1.5 hw) = [LedValue v]
         /\ (0 <= v /\ v <= 1)%Q).
Proof.
  apply (hardware_writes_clamped default_spotlight 120 (-200) 1.5
           {| mock := false; writes := [] |}).
  vm_compute. discriminate.
Defined.

(** ** Spotlight controller: activation *)

Section Activate.
Variable cfg : SpotlightConfig.

(** From a free lock [_activate] returns, with the lock free again and
    the stored brightness equal to the active one. *)
Lemma activate_returns (now : Q) (c : SpotlightController) :
  lock_held c = false ->
  exists c1,
    activate cfg now c = Returned c1
    /\ lock_held c1 = false
    /\ last_on c1 = now
    /\ Qeq_bool (current_brightness c1) (brightness cfg) = true.
Proof.
  intro Hfree. unfold activate, with_lock. rewrite Hfree.
  cbn [set_last_on set_lock_held current_brightness].
  destruct (Qeq_bool (current_brightness c) (brightness cfg)) eqn:E.
  - eexists. split; [reflexivity|]. cbn. auto.
  - eexists. split; [reflexivity|]. cbn.
    repeat split. apply Qeq_bool_refl.
Qed.

(** At the active brightness [_activate] only stores the time. *)
Lemma activate_when_active (now : Q) (c : SpotlightController) :
  lock_held c = false ->
  Qeq_bool (current_brightness c) (brightness cfg) = true ->
  activate cfg now c = Returned (set_last_on now c).
Proof.
  intros Hfree Hact. unfold activate, with_lock. rewrite Hfree.
  cbn [set_last_on set_lock_held current_brightness]. rewrite Hact.
  destruct c as [hw lo cb lk]. cbn in *. now subst lk.
Qed.
End Activate.

(** ** Spotlight controller: the periodic tick *)

Section Periodic.
Variable cfg : SpotlightConfig.

(** Called with the lock already taken, [_deactivate] blocks at once. *)
Lemma deactivate_blocks_under_lock (c : SpotlightController) :
  lock_held c = true -> deactivate cfg c = Blocked c.
Proof. intro H. unfold deactivate, with_lock. now rewrite H. Qed.

(** The expiry branch of [periodic]: the lock is taken by [periodic],
    then requested again by [_deactivate]. *)
Lemma periodic_expired (now : Q) (c : SpotlightController) :
  lock_held c = false ->
  (0 < light_hold_seconds cfg)%Q ->
  Qeq_bool (current_brightness c) (brightness cfg) = true ->
  (light_hold_seconds cfg <= now - last_on c)%Q ->
  periodic cfg now c = Blocked (set_lock_held true c).
Proof.
  intros Hfree Hhold Hact Hexp. unfold periodic.
  assert (E0 : Qle_bool (light_hold_seconds cfg) 0 = false).
  { destruct (Qle_bool (light_hold_seconds cfg) 0) eqn:E; [|reflexivity].
    apply Qle_bool_iff in E. lra. }
  rewrite E0. unfold with_lock at 1. rewrite Hfree.
  cbn [set_lock_held current_brightness last_on]. rewrite Hact.
  cbn [negb].
  assert (E1 : Qge_bool (now - last_on c) (light_hold_seconds cfg) = true)
    by now apply Qge_bool_iff.
  rewrite E1.
  now rewrite deactivate_blocks_under_lock.
Qed.

(** What [_deactivate] does when called with the lock free, as from
    [_on_message]. *)
Lemma deactivate_when_on (c : SpotlightController) :
  lock_held c = false ->
  Qeq_bool (current_brightness c) (rest_brightness cfg) = false ->
  exists c',
    deactivate cfg c = Returned c'
    /\ current_brightness c' = rest_brightness cfg
    /\ lock_held c' = false
    /\ writes (hardware c')
       = writes
           (let hw := set_brightness (rest_brightness cfg) (hardware c) in
            if auto_rest cfg
            then set_orientation cfg (servo_rest_pan cfg)
                   (servo_rest_tilt cfg) hw
            else hw).
Proof.
  intros Hfree Hon. unfold deactivate, with_lock. rewrite Hfree.
  cbn [set_lock_held current_brightness]. rewrite Hon.
  destruct (auto_rest cfg); eexists; (split; [reflexivity|]); cbn; auto.
Qed.
End Periodic.

(** A trigger-off message, handled with the lock free, does deactivate. *)
Example trigger_off_deactivates :
  exists c,
    on_message default_spotlight "events/person/bathroom/in" 5 lit_controller
    = Returned c
    /\ new_writes lit_controller (Returned c)
       = [LedValue 0.0; PanAngle 0.0; TiltAngle 0.0]
    /\ current_brightness c = rest_brightness default_spotlight.
Proof. eexists. repeat split. Qed.

(** Before the hold window has expired the tick returns and changes
    nothing. *)
Example periodic_within_hold :
  periodic default_spotlight 7.5 lit_controller = Returned lit_controller.
Proof. reflexivity. Qed.

(** C2 is not met by the code.  When the hold window has expired,
    [periodic] reaches [_deactivate] while holding the lock, and the call
    blocks in it before anything is done: no device is assigned and the
    stored brightness is still the active one. *)
Theorem periodic_expired_no_deactivation
  (cfg : SpotlightConfig) (now : Q) (c : SpotlightController) :
  lock_held c = false ->
  (0 < light_hold_seconds cfg)%Q ->
  Qeq_bool (current_brightness c) (brightness cfg) = true ->
  (light_hold_seconds cfg <= now - last_on c)%Q ->
  new_writes c (periodic cfg now c) = []
  /\ current_brightness (final (periodic cfg now c)) = current_brightness c
  /\ lock_held (final (periodic cfg now c)) = true.
Proof.
  intros Hfree Hhold Hact Hexp.
  rewrite (periodic_expired cfg now c Hfree Hhold Hact Hexp).
  unfold new_writes. cbn [final set_lock_held hardware current_brightness
                          lock_held].
  repeat split. apply skipn_all.
Qed.

Lemma periodic_expired_no_deactivation_witness :
  current_brightness lit_controller = 0.85%Q
  /\ new_writes lit_controller (periodic default_spotlight 8.5 lit_controller)
     = []
  /\ current_brightness
       (final (periodic default_spotlight 8.5 lit_controller))
     = current_brightness lit_controller
  /\ lock_held (final (periodic default_spotlight 8.5 lit_controller)) = true.
Proof.
  split; [reflexivity|].
  apply (periodic_expired_no_deactivation default_spotlight 8.5
           lit_controller).
  - reflexivity.
  - vm_compute. reflexivity.
  - reflexivity.
  - vm_compute. discriminate.
Defined.

(** C3 is not met by the code.  When the hold window has expired,
    [periodic] does not return: the nested [_deactivate] waits for the
    lock that [periodic] itself holds. *)
Theorem periodic_expired_never_returns
  (cfg : SpotlightConfig) (now : Q) (c : SpotlightController) :
  lock_held c = false ->
  (0 < light_hold_seconds cfg)%Q ->
  Qeq_bool (current_brightness c) (brightness cfg) = true ->
  (light_hold_seconds cfg <= now - last_on c)%Q ->
  (forall c', periodic cfg now c <> Returned c')
  /\ exists c', periodic cfg now c = Blocked c' /\ lock_held c' = true.
Proof.
  intros Hfree Hhold Hact Hexp.
  rewrite (periodic_expired cfg now c Hfree Hhold Hact Hexp).
  split; [discriminate|].
  eexists. split; reflexivity.
Qed.

Lemma periodic_expired_never_returns_witness :
  (forall c', periodic default_spotlight 8.5 lit_controller <> Returned c')
  /\ exists c',
      periodic default_spotlight 8.5 lit_controller = Blocked c'
      /\ lock_held c' = true.
Proof.
  apply (periodic_expired_never_returns default_spotlight 8.5
           lit_controller).
  - reflexivity.
  - vm_compute. reflexivity.
  - reflexivity.
  - vm_compute. discriminate.
Defined.

(** ** More on [line_crossed] *)

Section Sides.

#[local] Instance crossing_of_sides_comp :
  Proper (Qeq ==> Qeq ==> eq) crossing_of_sides.
Proof.
  intros p p' Hp c c' Hc. unfold crossing_of_sides, Qgt_bool.
  assert (E1 : Qeq_bool p 0 = Qeq_bool p' 0) by now rewrite Hp.
  assert (E2 : Qeq_bool c 0 = Qeq_bool c' 0) by now rewrite Hc.
  assert (E3 : Qlt_bool 0 (p * c) = Qlt_bool 0 (p' * c'))
    by now rewrite Hp, Hc.
  assert (E4 : Qlt_bool 0 (c - p) = Qlt_bool 0 (c' - p'))
    by now rewrite Hp, Hc.
  now rewrite E1, E2, E3, E4.
Qed.

(** The dot product of the movement with the normal is the difference of
    the two sides. *)
Lemma line_crossed_by_sides (prev curr : point) (l : line) :
  line_crossed prev curr l = crossing_of_sides (side l prev) (side l curr).
Proof.
  destruct prev as [px py], curr as [cx cy], l as [[x1 y1] [x2 y2]].
  unfold line_crossed, crossing_of_sides, side; cbn [fst snd].
  match goal with
  | |- (if ?b then _ else _) = _ => destruct b; [reflexivity|]
  end.
  f_equal. unfold Qgt_bool.
  match goal with
  | |- (if Qlt_bool 0 ?d then _ else _) = (if Qlt_bool 0 ?d' then _ else _) =>
      assert (E : (d == d')%Q) by ring; now rewrite E
  end.
Qed.

Lemma crossing_of_sides_cases (ps cs : Q) :
  (crossing_of_sides ps cs = None /\ (0 <= ps * cs)%Q)
  \/ (crossing_of_sides ps cs = Some "into_living"
      /\ (ps < 0)%Q /\ (0 < cs)%Q)
  \/ (crossing_of_sides ps cs = Some "into_room"
      /\ (0 < ps)%Q /\ (cs < 0)%Q).
Proof.
  unfold crossing_of_sides.
  destruct (Qeq_bool ps 0) eqn:Eps.
  { left. apply Qeq_bool_iff in Eps. split; [reflexivity|]. rewrite Eps. lra. }
  destruct (Qeq_bool cs 0) eqn:Ecs.
  { left. apply Qeq_bool_iff in Ecs. split; [reflexivity|]. rewrite Ecs. lra. }
  destruct (Qgt_bool (ps * cs) 0) eqn:Eprod.
  { left. apply Qgt_bool_iff in Eprod. split; [reflexivity | lra]. }
  cbn [orb]. right.
  apply Qeq_bool_false_iff in Eps, Ecs. apply Qgt_bool_false_iff in Eprod.
  destruct (Qgt_bool (cs - ps) 0) eqn:Ed.
  - left. apply Qgt_bool_iff in Ed. split; [reflexivity|]. nra.
  - right. apply Qgt_bool_false_iff in Ed. split; [reflexivity|].
    assert (ps * ps > 0 \/ ps * ps == 0)%Q as [Hsq | Hsq] by nra; [nra|].
    apply Qmult_integral in Hsq. tauto.
Qed.

End Sides.

(** ** More on [point_in_polygon] *)

Section PolygonEdges.
Variable pt : point.

(** An edge with both ends above the point, or both not above it, is not
    counted. *)
Lemma intersects_same_level (v1 v2 : point) :
  Qgt_bool (snd v1) (snd pt) = Qgt_bool (snd v2) (snd pt) ->
  intersects pt v1 v2 = false.
Proof.
  destruct pt as [x y], v1 as [x1 y1], v2 as [x2 y2]. cbn [snd].
  intro E. unfold intersects. rewrite E. now rewrite Bool.eqb_reflx.
Qed.

Lemma in_edges (poly : polygon) (v1 v2 : point) :
  In (v1, v2) (edges poly) -> In v1 poly /\ In v2 poly.
Proof.
  unfold edges. intro H. split.
  - now apply in_combine_l in H.
  - apply in_combine_r in H.
    now apply (Permutation_in _ (Permutation_rot1 poly)).
Qed.

Lemma parity_all_false {A : Type} (f : A -> bool) (l : list A) :
  (forall a, In a l -> f a = false) -> parity f l = false.
Proof.
  induction l as [|a l IH]; intro H; [reflexivity|].
  rewrite parity_cons, H by (now left).
  rewrite IH; [reflexivity|]. intros b Hb. apply H. now right.
Qed.

End PolygonEdges.

(** X5.  A point that is not strictly below some vertex and at or above
    another one is outside: when every vertex has [y_i > y], or every
    vertex has [y_i <= y], the result is [False] whatever the abscissas
    are. *)
Theorem point_in_polygon_outside_extent (pt : point) (poly : polygon) :
  (forall v, In v poly -> (snd pt < snd v)%Q)
  \/ (forall v, In v poly -> (snd v <= snd pt)%Q) ->
  point_in_polygon pt poly = false.
Proof.
  intro H. rewrite point_in_polygon_edges.
  apply parity_all_false. intros [v1 v2] He.
  apply in_edges in He as [H1 H2]. cbn [fst snd].
  apply intersects_same_level.
  destruct H as [H | H].
  - pose proof (H v1 H1) as A1. pose proof (H v2 H2) as A2.
    apply Qgt_bool_iff in A1, A2. congruence.
  - pose proof (H v1 H1) as A1. pose proof (H v2 H2) as A2.
    apply Qgt_bool_false_iff in A1, A2. congruence.
Qed.

Lemma point_in_polygon_outside_extent_witness :
  point_in_polygon (0.5, 0.9)%Q (living_room_polygon default_geometry)
  = false.
Proof.
  apply point_in_polygon_outside_extent. right.
  intros v Hv. cbn in Hv.
  repeat (destruct Hv as [<- | Hv]; [vm_compute; discriminate|]).
  contradiction.
Defined.

Section Rectangle.

(** A vertical edge is counted when it straddles the height of the point
    and the point is strictly to its left. *)
Lemma intersects_vertical (x y xe ya yb : Q) :
  intersects (x, y) (xe, ya) (xe, yb)
  = negb (Bool.eqb (Qgt_bool ya y) (Qgt_bool yb y)) && Qlt_bool x xe.
Proof.
  unfold intersects.
  destruct (negb (Bool.eqb (Qgt_bool ya y) (Qgt_bool yb y))) eqn:S;
    [|reflexivity].
  cbn [andb]. apply Qlt_bool_comp; [reflexivity|].
  assert (Hne : ~ (yb - ya == 0)%Q).
  { intro E. assert (E' : (ya == yb)%Q) by lra.
    unfold Qgt_bool in S. rewrite E' in S.
    now rewrite Bool.eqb_reflx in S. }
  unfold Qor. apply Qeq_bool_false_iff in Hne. rewrite Hne.
  apply Qeq_bool_false_iff in Hne. field. exact Hne.
Qed.

End Rectangle.

(** X6.  For an axis-parallel rectangle given by its four corners, the
    test is the half-open one: a point is inside exactly when
    [x0 <= x < x1] and [y0 <= y < y1], so the edges at [x0] and [y0]
    belong to the rectangle and the edges at [x1] and [y1] do not. *)
Theorem point_in_rectangle (x0 y0 x1 y1 x y : Q) :
  (x0 <= x1)%Q -> (y0 <= y1)%Q ->
  point_in_polygon (x, y) (rectangle x0 y0 x1 y1)
  = Qle_bool x0 x && Qlt_bool x x1 && Qle_bool y0 y && Qlt_bool y y1.
Proof.
  intros Hx Hy. rewrite point_in_polygon_edges.
  unfold rectangle, edges. cbn [rot1 app combine parity fold_right fst snd].
  rewrite (intersects_same_level (x, y) (x0, y0) (x1, y0)) by reflexivity.
  rewrite (intersects_same_level (x, y) (x1, y1) (x0, y1)) by reflexivity.
  rewrite !intersects_vertical. unfold Qgt_bool.
  destruct (Qlt_bool y y0) eqn:A, (Qlt_bool y y1) eqn:B,
           (Qlt_bool x x1) eqn:C, (Qlt_bool x x0) eqn:D,
           (Qle_bool x0 x) eqn:E, (Qle_bool y0 y) eqn:F;
    cbn; try reflexivity; exfalso;
    repeat match goal with
           | H : Qlt_bool _ _ = true |- _ => apply Qlt_bool_iff in H
           | H : Qlt_bool _ _ = false |- _ => apply Qlt_bool_false_iff in H
           | H : Qle_bool _ _ = true |- _ => apply Qle_bool_iff in H
           | H : Qle_bool ?a ?b = false |- _ =>
               assert (b < a)%Q
                 by (apply Qnot_le_lt; intro Hle;
                     apply Qle_bool_iff in Hle; congruence);
               clear H
           end;
    lra.
Qed.

Lemma point_in_rectangle_witness :
  point_in_polygon (0, 0)%Q (rectangle 0 0 1 1) = true
  /\ point_in_polygon (1, 1)%Q (rectangle 0 0 1 1) = false.
Proof.
  split.
  - rewrite (point_in_rectangle 0 0 1 1 0 0); [reflexivity | lra | lra].
  - rewrite (point_in_rectangle 0 0 1 1 1 1); [reflexivity | lra | lra].
Defined.

(** ** [normalize_point] *)

Section Normalize.

Lemma unit_fraction (n d : Z) :
  (0 <= n <= d)%Z -> (0 < d)%Z ->
  (0 <= inject_Z n / inject_Z d /\ inject_Z n / inject_Z d <= 1)%Q.
Proof.
  intros [Hn Hnd] Hd.
  assert (Hd' : (0 < inject_Z d)%Q) by (unfold Qlt; cbn; lia).
  split.
  - apply Qle_shift_div_l; [exact Hd'|].
    rewrite Qmult_0_l. unfold Qle; cbn; lia.
  - apply Qle_shift_div_r; [exact Hd'|].
    rewrite Qmult_1_l. unfold Qle; cbn; lia.
Qed.

End Normalize.

(** X7.  For a pixel inside a frame of positive width and height,
    [normalize_point] returns a point of the unit square. *)
Theorem normalize_point_unit_square (px py width height : Z) :
  (0 <= px <= width)%Z -> (0 <= py <= height)%Z ->
  (0 < width)%Z -> (0 < height)%Z ->
  exists x y,
    normalize_point (px, py) (width, height) = Some (x, y)
    /\ (0 <= x /\ x <= 1)%Q /\ (0 <= y /\ y <= 1)%Q.
Proof.
  intros Hx Hy Hw Hh. unfold normalize_point.
  assert (Ew : (width =? 0)%Z = false) by (apply Z.eqb_neq; lia).
  assert (Eh : (height =? 0)%Z = false) by (apply Z.eqb_neq; lia).
  rewrite Ew, Eh. cbn [orb fst snd].
  eexists. eexists. split; [reflexivity|].
  split; now apply unit_fraction.
Qed.

Lemma normalize_point_unit_square_witness :
  exists x y,
    normalize_point (320, 240)%Z (640, 480)%Z = Some (x, y)
    /\ (0 <= x /\ x <= 1)%Q /\ (0 <= y /\ y <= 1)%Q.
Proof.
  apply (normalize_point_unit_square 320 240 640 480); lia.
Defined.

(** ** More on the run loop *)

Section FrameExact.
Variable cfg : FusionConfig.

Lemma line_crossed_values (prev c : point) (l : line) (dir : string) :
  line_crossed prev c l = Some dir ->
  dir = "into_living" \/ dir = "into_room".
Proof.
  rewrite line_crossed_by_sides.
  destruct (crossing_of_sides_cases (side l prev) (side l c))
    as [[E _] | [[E _] | [E _]]]; rewrite E; intro H;
    [discriminate | left | right]; congruence.
Qed.

(** The loop over the doors stops at the first door, in the order
    (bed, bath), whose line is crossed and whose cooldown has passed. *)
Lemma check_doors_two (prev c : point) (ts : Q) (det : detection)
  (s : service) :
  let doors := [(bed, bed_door (geometry cfg));
                (bath, bath_door (geometry cfg))] in
  let accepted d :=
    match line_crossed prev c (door_line cfg d) with
    | Some _ =>
        negb (Qlt_bool (ts - door_get (last_cross_time s) d)
                       (detection_cooldown cfg))
    | None => false
    end in
  let hit d :=
    ({| det_centroid := det_centroid det; det_ts := det_ts det;
        det_door := Some d;
        det_direction := line_crossed prev c (door_line cfg d) |},
     set_last_cross_time (door_set (last_cross_time s) d ts) s) in
  check_doors cfg prev c ts doors det s
  = if accepted bed then hit bed
    else if accepted bath then hit bath
    else (det, s).
Proof.
  cbv zeta. cbn [check_doors door_line].
  destruct (line_crossed prev c (bed_door (geometry cfg))) as [db|] eqn:Eb.
  - pose proof (line_crossed_values _ _ _ _ Eb) as [-> | ->];
      cbn [str_truthy String.eqb negb];
      destruct (Qlt_bool (ts - door_get (last_cross_time s) bed)
                         (detection_cooldown cfg));
      cbn [negb]; try reflexivity;
      destruct (line_crossed prev c (bath_door (geometry cfg)))
        as [dh|] eqn:Eh; try reflexivity;
      pose proof (line_crossed_values _ _ _ _ Eh) as [-> | ->];
      cbn [str_truthy String.eqb negb];
      destruct (Qlt_bool (ts - door_get (last_cross_time s) bath)
                         (detection_cooldown cfg)); reflexivity.
  - cbn [str_truthy negb].
    destruct (line_crossed prev c (bath_door (geometry cfg)))
      as [dh|] eqn:Eh; try reflexivity;
      pose proof (line_crossed_values _ _ _ _ Eh) as [-> | ->];
      cbn [str_truthy String.eqb negb];
      destruct (Qlt_bool (ts - door_get (last_cross_time s) bath)
                         (detection_cooldown cfg)); reflexivity.
Qed.

Lemma handle_detection_exact (det : detection) (s : service)
  (door : door_name) (dir : string) :
  det_door det = Some door ->
  det_direction det = Some dir ->
  dir = "into_living" \/ dir = "into_room" ->
  handle_detection cfg det s
  = publish (crossing_topic door dir)
      (pub_payload (crossing_pub cfg s door dir (det_centroid det)
                      (det_ts det))) s.
Proof.
  intros Hdoor Hdir Hv. unfold handle_detection. rewrite Hdoor, Hdir.
  destruct Hv as [-> | ->], door; reflexivity.
Qed.

End FrameExact.

Section FrameStep.
Variable cfg : FusionConfig.

(** One frame: the publications of [_update_presence] followed by the
    crossing of the first accepted door; the crossing time of that door,
    and of no other, is set to the time of the frame; the centroid of the
    frame, if there is one, becomes the last centroid. *)
Lemma step_frame_exact (f : frame) (s : service) :
  let s1 := update_presence cfg (frame_centroid f)
              (clock_update_presence f) (clock_publish_presence f) s in
  let s' := step cfg s (Frame f) in
  published s' = published s1 ++ crossing_of_frame cfg s f
  /\ last_cross_time s'
     = match crossing_of_frame cfg s f, frame_centroid f, last_centroid s with
       | _ :: _, Some c, Some prev =>
           match first_accepted cfg s prev c (clock_process_frame f) with
           | Some d => door_set (last_cross_time s) d (clock_process_frame f)
           | None => last_cross_time s
           end
       | _, _, _ => last_cross_time s
       end
  /\ last_centroid s'
     = match frame_centroid f with
       | Some c => Some c
       | None => last_centroid s
       end
  /\ pir_last_on s' = pir_last_on s
  /\ last_presence_state s' = last_presence_state s1.
Proof.
  cbv zeta.
  pose proof (update_presence_cases cfg (frame_centroid f)
                (clock_update_presence f) (clock_publish_presence f) s)
    as (Hc & Hx & Hpir & _). cbv zeta in *.
  unfold step, process_frame, crossing_of_frame.
  destruct (frame_centroid f) as [c|].
  2:{ rewrite app_nil_r. auto. }
  set (s1 := update_presence cfg (Some c) (clock_update_presence f)
               (clock_publish_presence f) s) in *.
  rewrite Hc.
  destruct (last_centroid s) as [prev|].
  2:{ cbn. rewrite app_nil_r. auto. }
  rewrite check_doors_two. cbv zeta.
  cbn [last_cross_time set_last_centroid]. rewrite Hx.
  unfold first_accepted, accepted.
  destruct (line_crossed prev c (door_line cfg bed)) as [db|] eqn:Eb.
  - destruct (Qlt_bool (clock_process_frame f
                        - door_get (last_cross_time s) bed)
                       (detection_cooldown cfg)); cbn [negb].
    + destruct (line_crossed prev c (door_line cfg bath)) as [dh|] eqn:Eh.
      * destruct (Qlt_bool (clock_process_frame f
                            - door_get (last_cross_time s) bath)
                           (detection_cooldown cfg)); cbn [negb].
        -- rewrite handle_detection_none by reflexivity.
           cbn. rewrite app_nil_r. auto.
        -- rewrite Eh.
           erewrite handle_detection_exact;
             [| reflexivity | reflexivity
              | exact (line_crossed_values _ _ _ _ Eh)].
           cbn. rewrite ?Hx, Hpir. repeat split; reflexivity.
      * rewrite handle_detection_none by reflexivity.
        cbn. rewrite app_nil_r. auto.
    + rewrite Eb.
      erewrite handle_detection_exact;
        [| reflexivity | reflexivity
         | exact (line_crossed_values _ _ _ _ Eb)].
      cbn. rewrite ?Hx, Hpir. repeat split; reflexivity.
  - destruct (line_crossed prev c (door_line cfg bath)) as [dh|] eqn:Eh.
    + destruct (Qlt_bool (clock_process_frame f
                          - door_get (last_cross_time s) bath)
                         (detection_cooldown cfg)); cbn [negb].
      * rewrite handle_detection_none by reflexivity.
        cbn. rewrite app_nil_r. auto.
      * rewrite Eh.
        erewrite handle_detection_exact;
          [| reflexivity | reflexivity
           | exact (line_crossed_values _ _ _ _ Eh)].
        cbn. rewrite ?Hx, Hpir. repeat split; reflexivity.
    + rewrite handle_detection_none by reflexivity.
      cbn. rewrite app_nil_r. auto.
Qed.

End FrameStep.

Section Publications.
Variable cfg : FusionConfig.

Lemma well_formed_presence_pub (b : bool) (t : Q) :
  well_formed (presence_pub b t).
Proof. unfold well_formed, presence_pub. cbn. auto. Qed.

Lemma well_formed_crossing_pub (s : service) (d : door_name) (dir : string)
  (c : point) (ts : Q) :
  dir = "into_living" \/ dir = "into_room" ->
  well_formed (crossing_pub cfg s d dir c ts).
Proof.
  intro Hv. unfold well_formed, crossing_pub. cbn [pub_payload pub_topic].
  split.
  - destruct (Qle_bool _ _); auto.
  - destruct Hv as [-> | ->], d; cbn; auto.
Qed.

Lemma crossing_of_frame_cases (s : service) (f : frame) :
  crossing_of_frame cfg s f = []
  \/ exists d dir c prev,
      frame_centroid f = Some c
      /\ last_centroid s = Some prev
      /\ first_accepted cfg s prev c (clock_process_frame f) = Some d
      /\ line_crossed prev c (door_line cfg d) = Some dir
      /\ (dir = "into_living" \/ dir = "into_room")
      /\ crossing_of_frame cfg s f
         = [crossing_pub cfg s d dir c (clock_process_frame f)].
Proof.
  unfold crossing_of_frame.
  destruct (frame_centroid f) as [c|]; [|now left].
  destruct (last_centroid s) as [prev|]; [|now left].
  destruct (first_accepted cfg s prev c (clock_process_frame f))
    as [d|] eqn:Ea; [|now left].
  destruct (line_crossed prev c (door_line cfg d)) as [dir|] eqn:Ed;
    [|now left].
  right. exists d, dir, c, prev.
  repeat split; try reflexivity; try assumption.
  now apply (line_crossed_values _ _ _ _ Ed).
Qed.

(** The publications one step adds. *)
Lemma step_new_publications (s : service) (i : input) :
  exists pres cross,
    published (step cfg s i) = published s ++ pres ++ cross
    /\ (pres = []
        \/ exists t, pres = [presence_pub (negb (last_presence_state s)) t])
    /\ cross = match i with
               | Pir _ => []
               | Frame f => crossing_of_frame cfg s f
               end
    /\ (match i with Pir _ => pres = [] | Frame _ => True end).
Proof.
  destruct i as [m|f].
  - exists [], []. pose proof (step_pir_cases cfg m s) as (Hp & _ & _).
    cbv zeta in Hp. rewrite Hp, app_nil_r. auto.
  - pose proof (step_frame_exact cfg f s) as (Hp & _). cbv zeta in Hp.
    pose proof (update_presence_cases cfg (frame_centroid f)
                  (clock_update_presence f) (clock_publish_presence f) s)
      as (_ & _ & _ & [[Hu _] | [Hu _]]); cbv zeta in Hu;
      rewrite Hp, Hu.
    + exists [], (crossing_of_frame cfg s f). auto.
    + eexists _, (crossing_of_frame cfg s f). rewrite <- app_assoc.
      split; [reflexivity|]. split; [right; eexists; reflexivity | auto].
Qed.

Lemma well_formed_step (s : service) (i : input) :
  Forall well_formed (published s) ->
  Forall well_formed (published (step cfg s i)).
Proof.
  intro H.
  destruct (step_new_publications s i) as (pres & cross & E & Hp & Hc & _).
  rewrite E. apply Forall_app. split; [exact H|].
  apply Forall_app. split.
  - destruct Hp as [-> | [t ->]]; [constructor|].
    constructor; [apply well_formed_presence_pub | constructor].
  - subst cross. destruct i as [m|f]; [constructor|].
    destruct (crossing_of_frame_cases s f)
      as [-> | (d & dir & c & prev & _ & _ & _ & _ & Hv & ->)];
      [constructor|].
    constructor; [now apply well_formed_crossing_pub | constructor].
Qed.

Lemma crossing_ts_update_presence (d : door_name) (c : option point)
  (ts now_pub : Q) (s : service) :
  crossing_ts d (published (update_presence cfg c ts now_pub s))
  = crossing_ts d (published s).
Proof.
  pose proof (update_presence_cases cfg c ts now_pub s)
    as (_ & _ & _ & [[Hu _] | [Hu _]]); cbv zeta in Hu; rewrite Hu;
    [reflexivity|].
  rewrite crossing_ts_app. cbn. now rewrite app_nil_r.
Qed.

Lemma crossing_ts_crossing_pub (d d' : door_name) (s : service)
  (dir : string) (c : point) (ts : Q) :
  crossing_ts d [crossing_pub cfg s d' dir c ts]
  = if door_eqb d d' then [ts] else [].
Proof.
  cbn [crossing_ts crossing_pub]. rewrite door_of_crossing_topic.
  now destruct (door_eqb d d').
Qed.

End Publications.

(** X8.  Every publication of every execution is well formed: a crossing
    event carries [conf] 0.7 or 0.85 and a direction that agrees with its
    topic (["into_living"] on an [out] topic, ["into_room"] on an [in]
    topic); a presence event is on the presence topic with [conf] 0.9 for
    [true] and 0.8 for [false]. *)
Theorem publications_well_formed
  (cfg : FusionConfig) (inputs : list input) :
  Forall well_formed (published (run cfg inputs init_service)).
Proof.
  apply (run_invariant cfg (fun s => Forall well_formed (published s))).
  - intros s i. apply well_formed_step.
  - constructor.
Qed.

(** X9.  One step of the loop adds at most two publications: at most
    one presence event, which negates the presence state, followed by at
    most one crossing event; a PIR message adds none. *)
Theorem step_publishes_at_most_two
  (cfg : FusionConfig) (s : service) (i : input) :
  exists pres cross,
    published (step cfg s i) = published s ++ pres ++ cross
    /\ (pres = []
        \/ exists t, pres = [presence_pub (negb (last_presence_state s)) t])
    /\ (cross = []
        \/ exists d dir c ts,
            (dir = "into_living" \/ dir = "into_room")
            /\ cross = [crossing_pub cfg s d dir c ts])
    /\ (forall m, i = Pir m -> pres = [] /\ cross = []).
Proof.
  destruct (step_new_publications cfg s i)
    as (pres & cross & E & Hp & Hc & Hpir).
  exists pres, cross. split; [exact E|]. split; [exact Hp|]. split.
  - subst cross. destruct i as [m|f]; [now left|].
    destruct (crossing_of_frame_cases cfg s f)
      as [-> | (d & dir & c & prev & _ & _ & _ & _ & Hv & ->)];
      [now left|].
    right. now exists d, dir, c, (clock_process_frame f).
  - intros m ->. split; assumption.
Qed.

Section Gaps.
Variable cfg : FusionConfig.

Lemma step_empty_frame (f : frame) (s : service) :
  frame_centroid f = None ->
  let s' := step cfg s (Frame f) in
  last_centroid s' = last_centroid s
  /\ last_cross_time s' = last_cross_time s
  /\ no_new_crossing s s'
  /\ presence_enter_time s' = 0%Q
  /\ (last_presence_state s = false -> published s' = published s
                                       /\ last_presence_state s' = false).
Proof.
  intros Hf. cbv zeta.
  pose proof (step_frame_exact cfg f s) as (Hp & Hx & Hc & _ & _).
  cbv zeta in *. unfold crossing_of_frame in *. rewrite Hf in *.
  rewrite app_nil_r in Hp.
  repeat split; try assumption.
  - intro d. rewrite Hp. apply crossing_ts_update_presence.
  - unfold step, process_frame. rewrite Hf. unfold update_presence.
    cbn [set_presence_enter_time last_presence_state presence_exit_start].
    repeat match goal with
           | |- context [if ?b then _ else _] => destruct b
           end; reflexivity.
  - rewrite Hp. unfold update_presence.
    cbn [set_presence_enter_time last_presence_state]. now rewrite H.
  - unfold step, process_frame. rewrite Hf. unfold update_presence.
    cbn [set_presence_enter_time last_presence_state]. now rewrite H.
Qed.

End Gaps.

(** X10.  Frames without a detection do not move the reference point of
    the crossing test: over any run of such frames [_last_centroid] and
    [_last_cross_time] stay as they were and no crossing is published, so
    the next detection is compared with the centroid seen before the gap;
    the enter timer of the presence machine, however, is reset by the
    first of them. *)
Theorem empty_frames_keep_last_centroid
  (cfg : FusionConfig) (fs : list frame) (s : service) :
  empty_frames fs ->
  let s' := run cfg (map Frame fs) s in
  last_centroid s' = last_centroid s
  /\ last_cross_time s' = last_cross_time s
  /\ no_new_crossing s s'
  /\ (fs <> [] -> presence_enter_time s' = 0%Q).
Proof.
  intro Hfs. cbv zeta. revert s.
  induction Hfs as [|f fs Hf _ IH]; intro s.
  - cbn. repeat split; try reflexivity. intro H. now contradiction H.
  - change (run cfg (map Frame (f :: fs)) s)
      with (run cfg (map Frame fs) (step cfg s (Frame f))).
    destruct (step_empty_frame cfg f s Hf) as (Hc & Hx & Hn & He & _).
    destruct (IH (step cfg s (Frame f))) as (Hc' & Hx' & Hn' & He').
    repeat split.
    + now rewrite Hc'.
    + now rewrite Hx'.
    + intro d. now rewrite Hn'.
    + intros _. destruct fs as [|f' fs']; [exact He|].
      apply He'. discriminate.
Qed.

Lemma empty_frames_keep_last_centroid_witness :
  let gap := [frame_at None 100.1; frame_at None 100.2] in
  let s := step default_config init_service
             (Frame (frame_at (Some (0.25, 0.20)%Q) 100)) in
  last_centroid (run default_config (map Frame gap) s)
  = Some (0.25, 0.20)%Q.
Proof.
  cbv zeta.
  refine (proj1 (empty_frames_keep_last_centroid default_config
                   [frame_at None 100.1; frame_at None 100.2] _ _)).
  repeat constructor.
Defined.

(** X11.  Nothing is published on the first detection: from the initial
    state, any number of frames without a detection followed by the first
    frame with a centroid leaves the publication sequence empty. *)
Theorem first_detection_is_silent
  (cfg : FusionConfig) (fs : list frame) (f : frame) :
  empty_frames fs ->
  published (run cfg (map Frame fs ++ [Frame f]) init_service) = [].
Proof.
  intro Hfs. unfold run. rewrite fold_left_app. cbn [fold_left].
  fold (run cfg (map Frame fs) init_service).
  assert (Hinv : forall s,
             last_presence_state s = false -> published s = [] ->
             Qeq_bool (presence_enter_time s) 0 = true ->
             last_centroid s = None ->
             let s' := run cfg (map Frame fs) s in
             last_presence_state s' = false /\ published s' = []
             /\ Qeq_bool (presence_enter_time s') 0 = true
             /\ last_centroid s' = None).
  { induction Hfs as [|f0 fs0 Hf0 _ IH]; intros s Hp Hpub He Hc.
    - cbn. auto.
    - change (run cfg (map Frame (f0 :: fs0)) s)
        with (run cfg (map Frame fs0) (step cfg s (Frame f0))).
      destruct (step_empty_frame cfg f0 s Hf0) as (Hc' & _ & _ & He' & Hq).
      destruct (Hq Hp) as [Hpub' Hp'].
      apply IH; try assumption; try congruence.
      cbv zeta in He'. now rewrite He'. }
  destruct (Hinv init_service eq_refl eq_refl eq_refl eq_refl)
    as (Hp & Hpub & He & Hc).
  set (s := run cfg (map Frame fs) init_service) in *.
  pose proof (step_frame_exact cfg f s) as (Hq & _). cbv zeta in Hq.
  rewrite Hq. unfold crossing_of_frame. rewrite Hc.
  assert (Ecross : match frame_centroid f with
                   | Some _ | _ => @nil publication
                   end = []) by now destruct (frame_centroid f).
  rewrite Ecross, app_nil_r.
  unfold update_presence. rewrite Hp. cbn [negb].
  destruct (match frame_centroid f with
            | Some c0 =>
                point_in_polygon c0 (living_room_polygon (geometry cfg))
            | None => false
            end).
  - rewrite He. exact Hpub.
  - cbn. rewrite Hp. exact Hpub.
Qed.

Lemma first_detection_is_silent_witness :
  published
    (run default_config
       (map Frame [frame_at None 100] ++
        [Frame (frame_at (Some (0.5, 0.5)%Q) 101)])
       init_service) = [].
Proof.
  apply (first_detection_is_silent default_config [frame_at None 100]).
  repeat constructor.
Defined.

Section DoorOrder.
Variable cfg : FusionConfig.

Lemma step_first_accepted (f : frame) (s : service) (c prev : point)
  (d : door_name) :
  frame_centroid f = Some c ->
  last_centroid s = Some prev ->
  first_accepted cfg s prev c (clock_process_frame f) = Some d ->
  let s' := step cfg s (Frame f) in
  last_cross_time s' = door_set (last_cross_time s) d (clock_process_frame f)
  /\ forall d', crossing_ts d' (published s')
                = crossing_ts d' (published s)
                  ++ (if door_eqb d' d then [clock_process_frame f] else []).
Proof.
  intros Hf Hc Ha. cbv zeta.
  pose proof (step_frame_exact cfg f s) as (Hp & Hx & _). cbv zeta in *.
  destruct (crossing_of_frame_cases cfg s f)
    as [E | (d0 & dir & c0 & prev0 & Hf0 & Hc0 & Ha0 & _ & _ & E)].
  - exfalso. unfold crossing_of_frame in E. rewrite Hf, Hc, Ha in E.
    unfold first_accepted, accepted in Ha.
    destruct d;
      destruct (line_crossed prev c (door_line cfg bed));
      destruct (line_crossed prev c (door_line cfg bath));
      try discriminate;
      repeat match type of Ha with
             | context [if ?b then _ else _] => destruct b
             end; discriminate.
  - rewrite Hf in Hf0. rewrite Hc in Hc0.
    injection Hf0 as <-. injection Hc0 as <-.
    rewrite Ha in Ha0. injection Ha0 as <-.
    rewrite E, Hf, Hc, Ha in Hx. split; [exact Hx|].
    intro d'. rewrite Hp, E, crossing_ts_app, crossing_ts_update_presence.
    now rewrite crossing_ts_crossing_pub.
Qed.

End DoorOrder.

(** X12.  The bedroom door has priority.  When the movement crosses the
    bedroom line and the bedroom cooldown has passed, the frame publishes
    a bedroom crossing and nothing for the bathroom door, whose stored
    crossing time is left alone, also when the same movement crosses the
    bathroom line. *)
Theorem bed_door_has_priority
  (cfg : FusionConfig) (f : frame) (s : service) (c prev : point)
  (dir : string) :
  frame_centroid f = Some c ->
  last_centroid s = Some prev ->
  line_crossed prev c (bed_door (geometry cfg)) = Some dir ->
  (detection_cooldown cfg
   <= clock_process_frame f - door_get (last_cross_time s) bed)%Q ->
  let s' := step cfg s (Frame f) in
  crossing_ts bed (published s')
  = crossing_ts bed (published s) ++ [clock_process_frame f]
  /\ crossing_ts bath (published s') = crossing_ts bath (published s)
  /\ door_get (last_cross_time s') bath = door_get (last_cross_time s) bath.
Proof.
  intros Hf Hc Hdir Hcd. cbv zeta.
  assert (Ha : first_accepted cfg s prev c (clock_process_frame f)
               = Some bed).
  { unfold first_accepted, accepted. cbn [door_line]. rewrite Hdir.
    apply Qlt_bool_false_iff in Hcd. now rewrite Hcd. }
  destruct (step_first_accepted cfg f s c prev bed Hf Hc Ha) as [Hx Hts].
  rewrite Hx, (Hts bed), (Hts bath). cbn [door_eqb].
  rewrite app_nil_r. now destruct (last_cross_time s).
Qed.

Lemma bed_door_has_priority_witness :
  let s := step default_config init_service
             (Frame (frame_at (Some (0.5, 0.2)%Q) 100)) in
  let f := frame_at (Some (0.5, 0.5)%Q) 100.1 in
  line_crossed (0.5, 0.2)%Q (0.5, 0.5)%Q (bath_door default_geometry)
  = Some "into_living"
  /\ crossing_ts bed (published (step default_config s (Frame f)))
     = crossing_ts bed (published s) ++ [100.1%Q]
  /\ crossing_ts bath (published (step default_config s (Frame f)))
     = crossing_ts bath (published s)
  /\ door_get (last_cross_time (step default_config s (Frame f))) bath
     = door_get (last_cross_time s) bath.
Proof.
  cbv zeta. split; [reflexivity|].
  apply (bed_door_has_priority default_config
           (frame_at (Some (0.5, 0.5)%Q) 100.1) _ (0.5, 0.5)%Q (0.5, 0.2)%Q
           "into_living").
  - reflexivity.
  - reflexivity.
  - reflexivity.
  - vm_compute. discriminate.
Defined.

(** X13.  A bedroom crossing inside its cooldown does not hide the
    bathroom door: when the same movement crosses the bathroom line and
    the bathroom cooldown has passed, the frame publishes the bathroom
    crossing, and nothing for the bedroom door. *)
Theorem bath_door_after_bed_cooldown
  (cfg : FusionConfig) (f : frame) (s : service) (c prev : point)
  (dir : string) :
  frame_centroid f = Some c ->
  last_centroid s = Some prev ->
  (clock_process_frame f - door_get (last_cross_time s) bed
   < detection_cooldown cfg)%Q ->
  line_crossed prev c (bath_door (geometry cfg)) = Some dir ->
  (detection_cooldown cfg
   <= clock_process_frame f - door_get (last_cross_time s) bath)%Q ->
  let s' := step cfg s (Frame f) in
  crossing_ts bath (published s')
  = crossing_ts bath (published s) ++ [clock_process_frame f]
  /\ crossing_ts bed (published s') = crossing_ts bed (published s)
  /\ door_get (last_cross_time s') bed = door_get (last_cross_time s) bed.
Proof.
  intros Hf Hc Hbed Hdir Hcd. cbv zeta.
  assert (Ha : first_accepted cfg s prev c (clock_process_frame f)
               = Some bath).
  { unfold first_accepted, accepted. cbn [door_line]. rewrite Hdir.
    apply Qlt_bool_iff in Hbed. apply Qlt_bool_false_iff in Hcd.
    rewrite Hbed, Hcd.
    now destruct (line_crossed prev c (bed_door (geometry cfg))). }
  destruct (step_first_accepted cfg f s c prev bath Hf Hc Ha) as [Hx Hts].
  rewrite Hx, (Hts bed), (Hts bath). cbn [door_eqb].
  rewrite app_nil_r. now destruct (last_cross_time s).
Qed.

Lemma bath_door_after_bed_cooldown_witness :
  let s := run default_config both_lines_run init_service in
  let f := frame_at (Some (0.5, 0.2)%Q) 100.2 in
  crossing_ts bed (published s) = [100.1%Q]
  /\ crossing_ts bath (published (step default_config s (Frame f)))
     = crossing_ts bath (published s) ++ [100.2%Q]
  /\ crossing_ts bed (published (step default_config s (Frame f)))
     = crossing_ts bed (published s)
  /\ door_get (last_cross_time (step default_config s (Frame f))) bed
     = door_get (last_cross_time s) bed.
Proof.
  cbv zeta. split; [vm_compute; reflexivity|].
  apply (bath_door_after_bed_cooldown default_config
           (frame_at (Some (0.5, 0.2)%Q) 100.2) _ (0.5, 0.2)%Q (0.5, 0.5)%Q
           "into_room").
  - reflexivity.
  - reflexivity.
  - vm_compute. reflexivity.
  - reflexivity.
  - vm_compute. discriminate.
Defined.

(** ** More on the presence sub-machine *)

Section PresenceSteps.
Variable cfg : FusionConfig.

(** [_update_presence] for an observation inside the polygon. *)
Lemma update_presence_inside (c : option point) (ts now_pub : Q)
  (s : service) :
  in_polygon cfg c = true ->
  update_presence cfg c ts now_pub s
  = if negb (last_presence_state s) then
      if Qeq_bool (presence_enter_time s) 0 then
        set_presence_enter_time ts s
      else if Qge_bool (ts - presence_enter_time s)
                       (presence_confirm_seconds cfg) then
        publish_presence true now_pub
          (set_presence_exit_start 0 (set_last_presence_state true s))
      else s
    else set_presence_exit_start 0 s.
Proof.
  unfold in_polygon, update_presence. destruct c as [c|]; [|discriminate].
  now intros ->.
Qed.

(** [_update_presence] for an observation outside the polygon, or for no
    observation. *)
Lemma update_presence_outside (c : option point) (ts now_pub : Q)
  (s : service) :
  in_polygon cfg c = false ->
  update_presence cfg c ts now_pub s
  = let s := set_presence_enter_time 0 s in
    if last_presence_state s then
      if Qeq_bool (presence_exit_start s) 0 then
        set_presence_exit_start ts s
      else if Qge_bool (ts - presence_exit_start s)
                       (presence_hold_seconds cfg) then
        publish_presence false now_pub (set_last_presence_state false s)
      else s
    else set_presence_exit_start 0 s.
Proof.
  unfold in_polygon, update_presence. destruct c as [c|].
  - now intros ->.
  - reflexivity.
Qed.

End PresenceSteps.

(** X14.  Enter debounce.  From a state without presence and with the
    enter timer unset, a first observation inside the polygon at a clock
    reading [t0] other than 0 publishes nothing; a second one at [t1]
    publishes [present = true] and sets the presence state exactly when
    [t1 - t0 >= presence_confirm_seconds], and otherwise publishes
    nothing and keeps the timer at [t0]. *)
Theorem presence_confirmed_after_debounce
  (cfg : FusionConfig) (c0 c1 : option point) (t0 t1 p0 p1 : Q)
  (s : service) :
  in_polygon cfg c0 = true -> in_polygon cfg c1 = true ->
  last_presence_state s = false ->
  (presence_enter_time s == 0)%Q ->
  ~ (t0 == 0)%Q ->
  let s1 := update_presence cfg c0 t0 p0 s in
  let s2 := update_presence cfg c1 t1 p1 s1 in
  published s1 = published s
  /\ ((presence_confirm_seconds cfg <= t1 - t0)%Q ->
      published s2 = published s ++ [presence_pub true p1]
      /\ last_presence_state s2 = true)
  /\ ((t1 - t0 < presence_confirm_seconds cfg)%Q ->
      published s2 = published s
      /\ last_presence_state s2 = false
      /\ presence_enter_time s2 = t0).
Proof.
  intros H0 H1 Hp He Ht0. cbv zeta.
  rewrite (update_presence_inside cfg c0 _ _ s H0), Hp. cbn [negb].
  apply Qeq_bool_iff in He. rewrite He.
  rewrite (update_presence_inside cfg c1 _ _ _ H1).
  cbn [set_presence_enter_time last_presence_state presence_enter_time
       published negb]. rewrite Hp. cbn [negb].
  apply Qeq_bool_false_iff in Ht0. rewrite Ht0.
  split; [reflexivity|]. split; intro Hd.
  - apply Qge_bool_iff in Hd. rewrite Hd. cbn. auto.
  - assert (E : Qge_bool (t1 - t0) (presence_confirm_seconds cfg) = false).
    { unfold Qge_bool. destruct (Qle_bool _ _) eqn:E; [|reflexivity].
      apply Qle_bool_iff in E. lra. }
    rewrite E. cbn. auto.
Qed.

Lemma presence_confirmed_after_debounce_witness :
  let s1 := update_presence default_config (Some (0.5, 0.5)%Q) 100 100
              init_service in
  let s2 := update_presence default_config (Some (0.5, 0.5)%Q) 100.5 100.5
              s1 in
  published s1 = published init_service
  /\ ((presence_confirm_seconds default_config <= 100.5 - 100)%Q ->
      published s2 = published init_service ++ [presence_pub true 100.5]
      /\ last_presence_state s2 = true)
  /\ ((100.5 - 100 < presence_confirm_seconds default_config)%Q ->
      published s2 = published init_service
      /\ last_presence_state s2 = false
      /\ presence_enter_time s2 = 100%Q).
Proof.
  apply (presence_confirmed_after_debounce default_config
           (Some (0.5, 0.5)%Q) (Some (0.5, 0.5)%Q) 100 100.5 100 100.5
           init_service).
  - reflexivity.
  - reflexivity.
  - reflexivity.
  - reflexivity.
  - vm_compute. discriminate.
Defined.

(** X15.  A clock reading of 0 is the "timer unset" marker.  When the
    first observation inside the polygon is made at clock reading 0, the
    second one starts the debounce again instead of confirming: it
    publishes nothing, however late it comes, and only sets the enter
    timer to its own time. *)
Theorem presence_debounce_restarts_at_zero
  (cfg : FusionConfig) (c0 c1 : option point) (t0 t1 p0 p1 : Q)
  (s : service) :
  in_polygon cfg c0 = true -> in_polygon cfg c1 = true ->
  last_presence_state s = false ->
  (presence_enter_time s == 0)%Q ->
  (t0 == 0)%Q ->
  let s2 := update_presence cfg c1 t1 p1 (update_presence cfg c0 t0 p0 s) in
  published s2 = published s
  /\ last_presence_state s2 = false
  /\ presence_enter_time s2 = t1.
Proof.
  intros H0 H1 Hp He Ht0. cbv zeta.
  rewrite (update_presence_inside cfg c0 _ _ s H0), Hp. cbn [negb].
  apply Qeq_bool_iff in He. rewrite He.
  rewrite (update_presence_inside cfg c1 _ _ _ H1).
  cbn [set_presence_enter_time last_presence_state presence_enter_time
       published negb]. rewrite Hp. cbn [negb].
  apply Qeq_bool_iff in Ht0. rewrite Ht0. cbn. auto.
Qed.

Lemma presence_debounce_restarts_at_zero_witness :
  let s2 := update_presence default_config (Some (0.5, 0.5)%Q) 60 60
              (update_presence default_config (Some (0.5, 0.5)%Q) 0 0
                 init_service) in
  published s2 = published init_service
  /\ last_presence_state s2 = false
  /\ presence_enter_time s2 = 60%Q.
Proof.
  apply (presence_debounce_restarts_at_zero default_config
           (Some (0.5, 0.5)%Q) (Some (0.5, 0.5)%Q) 0 60 0 60 init_service);
    reflexivity.
Defined.

(** X16.  Exit hold.  From a state with presence and with the exit timer
    unset, a first observation outside the polygon (or a frame without
    detection) at a clock reading [t0] other than 0 publishes nothing; a
    second one at [t1] publishes [present = false] and clears the
    presence state exactly when [t1 - t0 >= presence_hold_seconds], and
    otherwise publishes nothing. *)
Theorem presence_dropped_after_hold
  (cfg : FusionConfig) (c0 c1 : option point) (t0 t1 p0 p1 : Q)
  (s : service) :
  in_polygon cfg c0 = false -> in_polygon cfg c1 = false ->
  last_presence_state s = true ->
  (presence_exit_start s == 0)%Q ->
  ~ (t0 == 0)%Q ->
  let s1 := update_presence cfg c0 t0 p0 s in
  let s2 := update_presence cfg c1 t1 p1 s1 in
  published s1 = published s
  /\ ((presence_hold_seconds cfg <= t1 - t0)%Q ->
      published s2 = published s ++ [presence_pub false p1]
      /\ last_presence_state s2 = false)
  /\ ((t1 - t0 < presence_hold_seconds cfg)%Q ->
      published s2 = published s
      /\ last_presence_state s2 = true
      /\ presence_exit_start s2 = t0).
Proof.
  intros H0 H1 Hp He Ht0. cbv zeta.
  rewrite (update_presence_outside cfg c0 _ _ s H0). cbv zeta.
  cbn [set_presence_enter_time last_presence_state presence_exit_start].
  rewrite Hp. apply Qeq_bool_iff in He. rewrite He.
  rewrite (update_presence_outside cfg c1 _ _ _ H1). cbv zeta.
  cbn [set_presence_enter_time set_presence_exit_start last_presence_state
       presence_exit_start published].
  rewrite Hp. apply Qeq_bool_false_iff in Ht0. rewrite Ht0.
  split; [reflexivity|]. split; intro Hd.
  - apply Qge_bool_iff in Hd. rewrite Hd. cbn. auto.
  - assert (E : Qge_bool (t1 - t0) (presence_hold_seconds cfg) = false).
    { unfold Qge_bool. destruct (Qle_bool _ _) eqn:E; [|reflexivity].
      apply Qle_bool_iff in E. lra. }
    rewrite E. cbn. auto.
Qed.

Lemma presence_dropped_after_hold_witness :
  let s := update_presence default_config (Some (0.5, 0.5)%Q) 100.5 100.5
             (update_presence default_config (Some (0.5, 0.5)%Q) 100 100
                init_service) in
  let s1 := update_presence default_config None 110 110 s in
  let s2 := update_presence default_config None 113 113 s1 in
  published s1 = published s
  /\ ((presence_hold_seconds default_config <= 113 - 110)%Q ->
      published s2 = published s ++ [presence_pub false 113]
      /\ last_presence_state s2 = false)
  /\ ((113 - 110 < presence_hold_seconds default_config)%Q ->
      published s2 = published s
      /\ last_presence_state s2 = true
      /\ presence_exit_start s2 = 110%Q).
Proof.
  apply (presence_dropped_after_hold default_config None None
           110 113 110 113).
  - reflexivity.
  - reflexivity.
  - reflexivity.
  - reflexivity.
  - vm_compute. discriminate.
Defined.

(** X17.  An observation inside the polygon cancels a pending exit.  With
    presence set and the exit timer unset, the sequence outside, inside,
    outside publishes nothing whatever the three clock readings are: the
    hold time is counted again from the third observation. *)
Theorem presence_exit_cancelled_by_return
  (cfg : FusionConfig) (c0 c1 c2 : option point) (t0 t1 t2 p0 p1 p2 : Q)
  (s : service) :
  in_polygon cfg c0 = false -> in_polygon cfg c1 = true ->
  in_polygon cfg c2 = false ->
  last_presence_state s = true ->
  (presence_exit_start s == 0)%Q ->
  let s3 := update_presence cfg c2 t2 p2
              (update_presence cfg c1 t1 p1
                 (update_presence cfg c0 t0 p0 s)) in
  published s3 = published s
  /\ last_presence_state s3 = true
  /\ presence_exit_start s3 = t2.
Proof.
  intros H0 H1 H2 Hp He. cbv zeta.
  rewrite (update_presence_outside cfg c0 _ _ s H0). cbv zeta.
  cbn [set_presence_enter_time last_presence_state presence_exit_start].
  rewrite Hp. apply Qeq_bool_iff in He. rewrite He.
  rewrite (update_presence_inside cfg c1 _ _ _ H1).
  cbn [set_presence_enter_time set_presence_exit_start last_presence_state].
  rewrite Hp. cbn [negb].
  rewrite (update_presence_outside cfg c2 _ _ _ H2). cbv zeta.
  cbn [set_presence_enter_time set_presence_exit_start last_presence_state
       presence_exit_start]. rewrite Hp.
  change (Qeq_bool 0 0) with true. cbn. auto.
Qed.

Lemma presence_exit_cancelled_by_return_witness :
  let s := update_presence default_config (Some (0.5, 0.5)%Q) 100.5 100.5
             (update_presence default_config (Some (0.5, 0.5)%Q) 100 100
                init_service) in
  let s3 := update_presence default_config None 200 200
              (update_presence default_config (Some (0.5, 0.5)%Q) 112 112
                 (update_presence default_config None 110 110 s)) in
  published s3 = published s
  /\ last_presence_state s3 = true
  /\ presence_exit_start s3 = 200%Q.
Proof.
  apply (presence_exit_cancelled_by_return default_config
           None (Some (0.5, 0.5)%Q) None 110 112 200 110 112 200);
    reflexivity.
Defined.

(** X18.  The presence state only moves towards the observation.  A call
    of [_update_presence] either leaves the presence state and the
    publications as they are, or the state was the opposite of what is
    observed, becomes what is observed, and exactly that value is
    published: presence is never declared on an observation outside the
    polygon and never dropped on one inside. *)
Theorem presence_follows_observation
  (cfg : FusionConfig) (c : option point) (ts now_pub : Q) (s : service) :
  let s' := update_presence cfg c ts now_pub s in
  (last_presence_state s' = last_presence_state s
   /\ published s' = published s)
  \/ (last_presence_state s = negb (in_polygon cfg c)
      /\ last_presence_state s' = in_polygon cfg c
      /\ published s'
         = published s ++ [presence_pub (in_polygon cfg c) now_pub]).
Proof.
  cbv zeta. destruct (in_polygon cfg c) eqn:Hin.
  - rewrite (update_presence_inside cfg c _ _ s Hin).
    destruct (last_presence_state s) eqn:Hp; cbn [negb].
    + left. cbn. auto.
    + destruct (Qeq_bool (presence_enter_time s) 0); [left; cbn; auto|].
      destruct (Qge_bool _ _); [right; cbn; auto | left; auto].
  - rewrite (update_presence_outside cfg c _ _ s Hin). cbv zeta.
    cbn [set_presence_enter_time last_presence_state presence_exit_start].
    destruct (last_presence_state s) eqn:Hp.
    + destruct (Qeq_bool (presence_exit_start s) 0); [left; cbn; auto|].
      destruct (Qge_bool _ _); [right; cbn; auto | left; cbn; auto].
    + left. cbn. auto.
Qed.

(** ** PIR pulses *)

Section Pir.
Variable cfg : FusionConfig.

Lemma handle_pir_event_on (m : pir_message) (s : service) :
  pir_state m = Some "ON" ->
  handle_pir_event m s
  = set_pir (zone_set (pir_last_on s) (zone_of_topic (pir_topic m))
               (pir_time m))
            (Some (pir_topic m)) s.
Proof. unfold handle_pir_event. now intros ->. Qed.

Lemma zone_get_set (zd : zone_dict) (z z' : zone_name) (v : Q) :
  zone_get (zone_set zd z v) z'
  = if zone_eqb z z' then v else zone_get zd z'.
Proof. now destruct z, z'. Qed.

End Pir.

(** X19.  After an ["ON"] message has been handled, the area threshold
    boost of [_pir_boost_active()] is on at every clock reading up to
    [pir_boost_window] after the time stored for the message (the
    payload's [ts], or the clock when it has none), whatever the zone of
    the message and whatever the other zone's time is. *)
Theorem pir_pulse_activates_boost
  (cfg : FusionConfig) (m : pir_message) (s : service) (now : Q) :
  pir_state m = Some "ON" ->
  (now - pir_time m <= pir_boost_window cfg)%Q ->
  pir_boost_active cfg None now (handle_pir_event m s) = true.
Proof.
  intros Hon Hw. rewrite (handle_pir_event_on m s Hon).
  unfold pir_boost_active. cbn [set_pir pir_last_on].
  apply Qle_bool_iff in Hw.
  destruct (zone_of_topic (pir_topic m)); cbn [zone_set at_bedroom at_bathroom];
    rewrite Hw; [reflexivity | apply orb_true_r].
Qed.

Lemma pir_pulse_activates_boost_witness :
  pir_boost_active default_config None 101.5
    (handle_pir_event
       {| pir_topic := "sensors/door/bathroom/pir"; pir_state := Some "ON";
          pir_ts := None; pir_clock := 100 |} init_service) = true.
Proof.
  apply pir_pulse_activates_boost.
  - reflexivity.
  - vm_compute. discriminate.
Defined.

(** X20.  A PIR pulse raises the confidence of its own door only.  For a
    detection handled right after an ["ON"] message: when the zone of the
    message (bedroom if its topic contains ["bedroom"], bathroom for
    every other topic) is the zone of the crossed door, [conf] is 0.85
    exactly when the crossing is at most [pir_cross_window] after the
    time stored for the message; otherwise the event is the one that
    would have been published without the message. *)
Theorem pir_pulse_confidence
  (cfg : FusionConfig) (m : pir_message) (det : detection) (s : service)
  (door : door_name) (dir : string) :
  pir_state m = Some "ON" ->
  det_door det = Some door ->
  det_direction det = Some dir ->
  dir = "into_living" \/ dir = "into_room" ->
  published (handle_detection cfg det (handle_pir_event m s))
  = published s
    ++ [if zone_eqb (zone_of_topic (pir_topic m)) (zone_of_door door)
        then {| pub_topic := crossing_topic door dir;
                pub_payload :=
                  CrossingPayload (det_ts det) dir (det_centroid det)
                    (if Qle_bool (det_ts det - pir_time m)
                                 (pir_cross_window cfg)
                     then 0.85 else 0.7)%Q |}
        else crossing_pub cfg s door dir (det_centroid det) (det_ts det)].
Proof.
  intros Hon Hdoor Hdir Hv.
  rewrite (handle_detection_exact cfg det _ door dir Hdoor Hdir Hv).
  rewrite (handle_pir_event_on m s Hon).
  cbn [publish published set_pir]. f_equal.
  unfold crossing_pub. cbn [pub_payload].
  change (pir_last_on (set_pir ?a ?b ?c)) with a.
  rewrite zone_get_set.
  now destruct (zone_eqb (zone_of_topic (pir_topic m)) (zone_of_door door)).
Qed.

Lemma pir_pulse_confidence_witness :
  published
    (handle_detection default_config
       {| det_centroid := (0.25, 0.40)%Q; det_ts := 100.1;
          det_door := Some bed; det_direction := Some "into_living" |}
       (handle_pir_event
          {| pir_topic := "sensors/door/kitchen/pir"; pir_state := Some "ON";
             pir_ts := Some 100%Q; pir_clock := 100 |} init_service))
  = [{| pub_topic := "events/person/bedroom/out";
        pub_payload :=
          CrossingPayload 100.1 "into_living" (0.25, 0.40)%Q 0.7 |}].
Proof.
  rewrite (pir_pulse_confidence default_config
             {| pir_topic := "sensors/door/kitchen/pir";
                pir_state := Some "ON";
                pir_ts := Some 100%Q; pir_clock := 100 |}
             {| det_centroid := (0.25, 0.40)%Q; det_ts := 100.1;
                det_door := Some bed; det_direction := Some "into_living" |}
             init_service bed
             "into_living" eq_refl eq_refl eq_refl (or_introl eq_refl)).
  vm_compute. reflexivity.
Defined.

(** ** Topic lists *)

Section UniqueTopics.

(** The loop invariant: [seen] and [ordered] hold the same topics, and
    [ordered] has no duplicate. *)
Lemma unique_loop_inv (topics seen ordered : list string) :
  (forall t, In t seen <-> In t ordered) ->
  NoDup ordered ->
  let r := fold_left
             (fun (acc : list string * list string) (topic : string) =>
                let '(seen, ordered) := acc in
                if topic_in topic seen then (seen, ordered)
                else (topic :: seen, ordered ++ [topic]))
             topics (seen, ordered) in
  NoDup (snd r)
  /\ (forall t, In t (snd r) <-> In t ordered \/ In t topics)
  /\ (exists added, snd r = ordered ++ added).
Proof.
  revert seen ordered.
  induction topics as [|x topics IH]; intros seen ordered Hs Hn; cbv zeta.
  - cbn. repeat split; auto.
    + intros [H | []]; exact H.
    + exists []. now rewrite app_nil_r.
  - cbn [fold_left]. destruct (topic_in x seen) eqn:Ex.
    + destruct (IH seen ordered Hs Hn) as (H1 & H2 & H3).
      repeat split; try assumption.
      * intro H. apply H2 in H as [H | H]; [now left | right; now right].
      * intros [H | [<- | H]]; apply H2; auto.
        left. apply Hs. unfold topic_in in Ex.
        apply existsb_exists in Ex as (y & Hy & Ey).
        apply String.eqb_eq in Ey. now subst y.
    + assert (Hx : ~ In x ordered).
      { intro H. apply Hs in H.
        assert (topic_in x seen = true); [|congruence].
        unfold topic_in. apply existsb_exists. exists x.
        split; [exact H | apply String.eqb_refl]. }
      destruct (IH (x :: seen) (ordered ++ [x])) as (H1 & H2 & [added H3]).
      * intro t. cbn [In]. rewrite in_app_iff, Hs. cbn [In]. tauto.
      * apply NoDup_app; [exact Hn | repeat constructor; intros [] |].
        intros t Ht [<- | []]. contradiction.
      * repeat split; try assumption.
        -- intro H. apply H2 in H. rewrite in_app_iff in H. cbn [In] in *.
           tauto.
        -- intro H. apply H2. rewrite in_app_iff. cbn [In] in *. tauto.
        -- exists (x :: added). rewrite H3, <- app_assoc. reflexivity.
Qed.

End UniqueTopics.

(** X21.  [_unique_topics] returns a list without duplicates that holds
    exactly the topics of its argument; so [_on_connect] subscribes once
    to every trigger-on and trigger-off topic, and to nothing else. *)
Theorem unique_topics_nodup_same_members
  (topics : list string) (cfg : SpotlightConfig) :
  NoDup (unique_topics topics)
  /\ (forall t, In t (unique_topics topics) <-> In t topics)
  /\ NoDup (subscriptions cfg)
  /\ (forall t, In t (subscriptions cfg)
                <-> In t (trigger_on_topics cfg)
                    \/ In t (trigger_off_topics cfg)).
Proof.
  assert (H : forall l, NoDup (unique_topics l)
                        /\ forall t, In t (unique_topics l) <-> In t l).
  { intro l. destruct (unique_loop_inv l [] []) as (H1 & H2 & _).
    - intro t. tauto.
    - constructor.
    - split; [exact H1|]. intro t. unfold unique_topics.
      rewrite (H2 t). cbn [In]. tauto. }
  destruct (H topics) as [H1 H2].
  destruct (H (trigger_on_topics cfg ++ trigger_off_topics cfg)) as [H3 H4].
  repeat split; try assumption; try apply H2; try apply H4.
  - intro Ht. apply H4 in Ht. now apply in_app_or.
  - intro Ht. apply H4. now apply in_or_app.
Qed.

Section FirstOccurrences.

Lemma unique_loop_first_occurrences (topics seen ordered : list string) :
  snd (fold_left
         (fun (acc : list string * list string) (topic : string) =>
            let '(seen, ordered) := acc in
            if topic_in topic seen then (seen, ordered)
            else (topic :: seen, ordered ++ [topic]))
         topics (seen, ordered))
  = ordered ++ first_occurrences seen topics.
Proof.
  revert seen ordered.
  induction topics as [|x topics IH]; intros seen ordered.
  - cbn. now rewrite app_nil_r.
  - cbn [fold_left first_occurrences]. destruct (topic_in x seen).
    + apply IH.
    + rewrite IH, <- app_assoc. reflexivity.
Qed.

Lemma unique_topics_first_occurrences (topics : list string) :
  unique_topics topics = first_occurrences [] topics.
Proof. unfold unique_topics. apply unique_loop_first_occurrences. Qed.

Lemma first_occurrences_ext (s1 s2 topics : list string) :
  (forall t, topic_in t s1 = topic_in t s2) ->
  first_occurrences s1 topics = first_occurrences s2 topics.
Proof.
  revert s1 s2. induction topics as [|x topics IH]; intros s1 s2 H;
    [reflexivity|].
  cbn [first_occurrences]. rewrite (H x).
  destruct (topic_in x s2); [now apply IH|].
  f_equal. apply IH. intro t. unfold topic_in in *. cbn [existsb].
  now rewrite H.
Qed.

Lemma first_occurrences_not_seen (seen topics : list string) (t : string) :
  In t (first_occurrences seen topics) -> topic_in t seen = false.
Proof.
  revert seen. induction topics as [|x topics IH]; intros seen H;
    [contradiction|].
  cbn [first_occurrences] in H. destruct (topic_in x seen) eqn:Ex.
  - now apply IH.
  - destruct H as [<- | H]; [exact Ex|].
    apply IH in H. unfold topic_in in *. cbn [existsb] in H.
    now apply orb_false_elim in H.
Qed.

Lemma filter_other_than_id (x : string) (l : list string) :
  (forall t, In t l -> String.eqb t x = false) ->
  filter (other_than x) l = l.
Proof.
  induction l as [|y l IH]; intro H; [reflexivity|].
  cbn [filter]. unfold other_than at 1. rewrite H by (now left).
  cbn [negb]. f_equal. apply IH. intros t Ht. apply H. now right.
Qed.

Lemma first_occurrences_seen_cons (x : string) (seen topics : list string) :
  first_occurrences (x :: seen) topics
  = filter (other_than x) (first_occurrences seen topics).
Proof.
  revert seen. induction topics as [|y topics IH]; intro seen;
    [reflexivity|].
  cbn [first_occurrences]. unfold topic_in at 1. cbn [existsb].
  fold (topic_in y seen).
  destruct (topic_in y seen) eqn:Ey.
  - rewrite orb_true_r. apply IH.
  - rewrite orb_false_r. destruct (String.eqb y x) eqn:Eyx.
    + apply String.eqb_eq in Eyx. subst y.
      cbn [filter]. unfold other_than at 1. rewrite String.eqb_refl.
      cbn [negb]. symmetry. apply filter_other_than_id.
      intros t Ht. apply first_occurrences_not_seen in Ht.
      unfold topic_in in Ht. cbn [existsb] in Ht.
      now apply orb_false_elim in Ht.
    + cbn [filter]. unfold other_than at 1. rewrite Eyx. cbn [negb].
      f_equal. rewrite <- IH. apply first_occurrences_ext.
      intro t. unfold topic_in. cbn [existsb].
      now destruct (String.eqb t y), (String.eqb t x).
Qed.

Lemma unique_topics_cons (x : string) (topics : list string) :
  unique_topics (x :: topics)
  = x :: filter (other_than x) (unique_topics topics).
Proof.
  rewrite !unique_topics_first_occurrences. cbn [first_occurrences].
  change (topic_in x []) with false. cbn iota.
  now rewrite first_occurrences_seen_cons.
Qed.

Lemma unique_topics_id (topics : list string) :
  NoDup topics -> unique_topics topics = topics.
Proof.
  induction 1 as [|x l Hx _ IH]; [reflexivity|].
  rewrite unique_topics_cons, IH. f_equal.
  apply filter_other_than_id. intros t Ht.
  apply String.eqb_neq. intros ->. contradiction.
Qed.

End FirstOccurrences.

(** X22.  [_unique_topics] keeps the first occurrence of every topic, in
    the order of the argument: the result for [x :: topics] is [x]
    followed by the result for [topics] without [x].  Hence a list
    without duplicates is returned unchanged, and applying the function
    twice is the same as applying it once. *)
Theorem unique_topics_first_seen_order (x : string) (topics : list string) :
  unique_topics (x :: topics)
  = x :: filter (other_than x) (unique_topics topics)
  /\ (NoDup topics -> unique_topics topics = topics)
  /\ unique_topics (unique_topics topics) = unique_topics topics.
Proof.
  split; [apply unique_topics_cons|].
  split; [apply unique_topics_id|].
  apply unique_topics_id.
  destruct (unique_loop_inv topics [] []) as (H & _).
  - intro t. tauto.
  - constructor.
  - exact H.
Qed.

Lemma unique_topics_first_seen_order_witness :
  unique_topics ["a"; "b"; "a"; "c"; "b"] = ["a"; "b"; "c"]
  /\ unique_topics ["a"; "b"; "c"] = ["a"; "b"; "c"].
Proof.
  split; [reflexivity|].
  apply (proj1 (proj2 (unique_topics_first_seen_order "a" ["a"; "b"; "c"]))).
  repeat constructor; cbn; intuition discriminate.
Defined.

(** ** More on the spotlight controller *)

Section ControllerCalls.
Variable cfg : SpotlightConfig.

Lemma release_after_take (c : SpotlightController) :
  lock_held c = false -> set_lock_held false (set_lock_held true c) = c.
Proof. destruct c as [hw lo cb lk]. cbn. now intros ->. Qed.

(** [periodic] from a free lock. *)
Lemma periodic_cases (now : Q) (c : SpotlightController) :
  lock_held c = false ->
  periodic cfg now c
  = if hold_expired cfg now c then Blocked (set_lock_held true c)
    else Returned c.
Proof.
  intro Hfree. unfold periodic, hold_expired.
  destruct (Qle_bool (light_hold_seconds cfg) 0); cbn [negb andb];
    [reflexivity|].
  unfold with_lock at 1. rewrite Hfree.
  cbn [set_lock_held current_brightness last_on].
  destruct (Qeq_bool (current_brightness c) (brightness cfg));
    cbn [negb andb].
  - destruct (Qge_bool (now - last_on c) (light_hold_seconds cfg)).
    + now rewrite deactivate_blocks_under_lock.
    + now rewrite release_after_take.
  - now rewrite release_after_take.
Qed.

(** With the lock taken no call changes anything. *)
Lemma ctl_step_under_lock (c : SpotlightController) (e : ctl_event) :
  lock_held c = true -> final (ctl_step cfg c e) = c.
Proof.
  intro Hheld. destruct e as [topic now | now]; cbn [ctl_step].
  - unfold on_message, activate, deactivate, with_lock. rewrite Hheld.
    now destruct (topic_in topic (trigger_on_topics cfg)),
                 (topic_in topic (trigger_off_topics cfg)).
  - unfold periodic, with_lock. rewrite Hheld.
    now destruct (Qle_bool (light_hold_seconds cfg) 0).
Qed.

Lemma ctl_run_under_lock (events : list ctl_event)
  (c : SpotlightController) :
  lock_held c = true -> ctl_run cfg events c = c.
Proof.
  intro Hheld. unfold ctl_run.
  induction events as [|e events IH]; [reflexivity|].
  cbn [fold_left]. now rewrite ctl_step_under_lock.
Qed.

(** [_deactivate] from a free lock. *)
Lemma deactivate_cases (c : SpotlightController) :
  lock_held c = false ->
  deactivate cfg c
  = Returned
      (if Qeq_bool (current_brightness c) (rest_brightness cfg) then c
       else
         let hw := set_brightness (rest_brightness cfg) (hardware c) in
         let hw := if auto_rest cfg
                   then set_orientation cfg (servo_rest_pan cfg)
                          (servo_rest_tilt cfg) hw
                   else hw in
         set_hardware hw (set_current_brightness (rest_brightness cfg) c)).
Proof.
  intro Hfree. unfold deactivate, with_lock. rewrite Hfree.
  cbn [set_lock_held current_brightness].
  destruct c as [hw lo cb lk]. cbn in Hfree. subst lk.
  cbn [current_brightness hardware].
  destruct (Qeq_bool cb (rest_brightness cfg)); [reflexivity|].
  now destruct (auto_rest cfg).
Qed.

(** [_activate] from a free lock. *)
Lemma activate_cases (now : Q) (c : SpotlightController) :
  lock_held c = false ->
  activate cfg now c
  = Returned
      (if Qeq_bool (current_brightness c) (brightness cfg)
       then set_last_on now c
       else
         let hw := set_orientation cfg (servo_pan_angle cfg)
                     (servo_tilt_angle cfg) (hardware c) in
         let hw := set_brightness (brightness cfg) hw in
         set_hardware hw
           (set_current_brightness (brightness cfg) (set_last_on now c))).
Proof.
  intro Hfree. unfold activate, with_lock. rewrite Hfree.
  destruct c as [hw lo cb lk]. cbn in Hfree. subst lk.
  cbn [set_lock_held set_last_on current_brightness hardware last_on
       lock_held].
  now destruct (Qeq_bool cb (brightness cfg)).
Qed.

End ControllerCalls.

(** X23.  [periodic] never assigns to a device and never changes the
    stored brightness or [_last_on].  Called with the lock free it
    returns the state unchanged, unless [light_hold_seconds > 0], the
    stored brightness is the active one and the hold window has expired;
    then it blocks, with the lock taken and nothing else changed. *)
Theorem periodic_changes_nothing
  (cfg : SpotlightConfig) (now : Q) (c : SpotlightController) :
  lock_held c = false ->
  periodic cfg now c
  = (if hold_expired cfg now c then Blocked (set_lock_held true c)
     else Returned c)
  /\ hardware (final (periodic cfg now c)) = hardware c
  /\ current_brightness (final (periodic cfg now c)) = current_brightness c
  /\ last_on (final (periodic cfg now c)) = last_on c.
Proof.
  intro Hfree. rewrite (periodic_cases cfg now c Hfree).
  split; [reflexivity|].
  now destruct (hold_expired cfg now c).
Qed.

Lemma periodic_changes_nothing_witness :
  periodic default_spotlight 3 lit_controller = Returned lit_controller
  /\ periodic default_spotlight 9 lit_controller
     = Blocked (set_lock_held true lit_controller).
Proof.
  split.
  - apply (proj1 (periodic_changes_nothing default_spotlight 3
                    lit_controller eq_refl)).
  - apply (proj1 (periodic_changes_nothing default_spotlight 9
                    lit_controller eq_refl)).
Defined.

(** X24.  Once a tick has found the hold window expired, the controller
    is stuck: whatever messages and ticks follow, no device is assigned,
    the stored brightness stays the active one and the lock stays
    taken. *)
Theorem expired_tick_freezes_controller
  (cfg : SpotlightConfig) (now : Q) (events : list ctl_event)
  (c : SpotlightController) :
  lock_held c = false ->
  hold_expired cfg now c = true ->
  ctl_run cfg (Tick now :: events) c = set_lock_held true c.
Proof.
  intros Hfree Hexp. unfold ctl_run. cbn [fold_left ctl_step].
  rewrite (periodic_cases cfg now c Hfree), Hexp. cbn [final].
  apply ctl_run_under_lock. reflexivity.
Qed.

Lemma expired_tick_freezes_controller_witness :
  ctl_run default_spotlight
    [Tick 9; Message "events/person/bathroom/in" 10; Tick 10.5;
     Message "events/person/bedroom/out" 11]
    lit_controller
  = set_lock_held true lit_controller.
Proof.
  apply (expired_tick_freezes_controller default_spotlight 9);
    reflexivity.
Defined.

(** X25.  From a state with the lock free, two calls of [_deactivate]
    with nothing in between both return, and the second one changes
    nothing at all. *)
Theorem deactivate_twice_one_transition
  (cfg : SpotlightConfig) (c : SpotlightController) :
  lock_held c = false ->
  exists c1,
    deactivate cfg c = Returned c1
    /\ deactivate cfg c1 = Returned c1
    /\ Qeq_bool (current_brightness c1) (rest_brightness cfg) = true.
Proof.
  intro Hfree. rewrite (deactivate_cases cfg c Hfree).
  eexists. split; [reflexivity|].
  destruct (Qeq_bool (current_brightness c) (rest_brightness cfg)) eqn:E.
  - rewrite (deactivate_cases cfg c Hfree), E. auto.
  - cbv zeta.
    assert (Hrest : Qeq_bool (rest_brightness cfg) (rest_brightness cfg)
                    = true) by apply Qeq_bool_refl.
    rewrite deactivate_cases by exact Hfree.
    cbn [current_brightness set_hardware set_current_brightness].
    rewrite Hrest. auto.
Qed.

Lemma deactivate_twice_one_transition_witness :
  exists c1,
    deactivate default_spotlight lit_controller = Returned c1
    /\ deactivate default_spotlight c1 = Returned c1
    /\ Qeq_bool (current_brightness c1) (rest_brightness default_spotlight)
       = true.
Proof.
  apply (deactivate_twice_one_transition default_spotlight lit_controller).
  reflexivity.
Defined.

Section ControllerRuns.
Variable cfg : SpotlightConfig.

(** What one event can do to the state. *)
Lemma ctl_step_cases (c : SpotlightController) (e : ctl_event) :
  let c' := final (ctl_step cfg c e) in
  c' = c
  \/ (exists now,
         Qeq_bool (current_brightness c) (brightness cfg) = true
         /\ c' = set_last_on now c)
  \/ (exists now,
         lock_held c = false
         /\ Qeq_bool (current_brightness c) (brightness cfg) = false
         /\ c' = activated cfg now c)
  \/ (lock_held c = false
      /\ Qeq_bool (current_brightness c) (rest_brightness cfg) = false
      /\ c' = deactivated cfg c)
  \/ (is_message e = false /\ c' = set_lock_held true c).
Proof.
  cbv zeta. destruct (lock_held c) eqn:Hlock.
  { left. now apply ctl_step_under_lock. }
  destruct e as [topic now | now]; cbn [ctl_step].
  - unfold on_message.
    destruct (topic_in topic (trigger_on_topics cfg)).
    + rewrite (activate_cases cfg now c Hlock). cbn [final].
      destruct (Qeq_bool (current_brightness c) (brightness cfg)) eqn:E.
      * right. left. now exists now.
      * right. right. left. now exists now.
    + destruct (topic_in topic (trigger_off_topics cfg)); [|now left].
      rewrite (deactivate_cases cfg c Hlock). cbn [final].
      destruct (Qeq_bool (current_brightness c) (rest_brightness cfg))
        eqn:E; [now left|].
      right. right. right. left. auto.
  - rewrite (periodic_cases cfg now c Hlock).
    destruct (hold_expired cfg now c); cbn [final]; [|now left].
    right. right. right. right. auto.
Qed.

(** A property of the state that every event keeps holds after every
    sequence of events. *)
Lemma ctl_run_invariant (P : SpotlightController -> Prop) :
  (forall c e, P c -> P (final (ctl_step cfg c e))) ->
  forall events c, P c -> P (ctl_run cfg events c).
Proof.
  intros Hstep events. unfold ctl_run.
  induction events as [|e events IH]; intros c Hc; [exact Hc|].
  cbn [fold_left]. apply IH, Hstep, Hc.
Qed.

Lemma led_value_app (a b : list hw_write) :
  led_value (a ++ b)
  = match led_value b with
    | Some v => Some v
    | None => led_value a
    end.
Proof.
  induction a as [|w a IH]; cbn [app led_value].
  - now destruct (led_value b).
  - rewrite IH. now destruct (led_value b).
Qed.

Lemma writes_set_orientation (pan tilt : Q) (hw : SpotlightHardware) :
  mock (set_orientation cfg pan tilt hw) = mock hw
  /\ writes (set_orientation cfg pan tilt hw)
     = writes hw
       ++ (if mock hw then []
           else [PanAngle (clamp_angle cfg pan);
                 TiltAngle (clamp_angle cfg tilt)]).
Proof.
  unfold set_orientation. destruct (mock hw) eqn:E; cbn [mock writes].
  - now rewrite app_nil_r.
  - auto.
Qed.

Lemma writes_set_brightness (value : Q) (hw : SpotlightHardware) :
  mock (set_brightness value hw) = mock hw
  /\ writes (set_brightness value hw)
     = writes hw
       ++ (if mock hw then [] else [LedValue (clamp_brightness value)]).
Proof.
  unfold set_brightness. destruct (mock hw) eqn:E; cbn [mock writes].
  - now rewrite app_nil_r.
  - auto.
Qed.

Lemma writes_activated (now : Q) (c : SpotlightController) :
  mock (hardware (activated cfg now c)) = mock (hardware c)
  /\ writes (hardware (activated cfg now c))
     = writes (hardware c)
       ++ (if mock (hardware c) then []
           else [PanAngle (clamp_angle cfg (servo_pan_angle cfg));
                 TiltAngle (clamp_angle cfg (servo_tilt_angle cfg));
                 LedValue (clamp_brightness (brightness cfg))]).
Proof.
  unfold activated. cbv zeta. cbn [hardware set_hardware
    set_current_brightness set_last_on].
  destruct (writes_set_brightness (brightness cfg)
              (set_orientation cfg (servo_pan_angle cfg)
                 (servo_tilt_angle cfg) (hardware c))) as [M W].
  destruct (writes_set_orientation (servo_pan_angle cfg)
              (servo_tilt_angle cfg) (hardware c)) as [M' W'].
  rewrite M, W, M', W'. split; [reflexivity|].
  rewrite <- app_assoc. now destruct (mock (hardware c)).
Qed.

Lemma writes_deactivated (c : SpotlightController) :
  mock (hardware (deactivated cfg c)) = mock (hardware c)
  /\ writes (hardware (deactivated cfg c))
     = writes (hardware c)
       ++ (if mock (hardware c) then []
           else LedValue (clamp_brightness (rest_brightness cfg))
                :: (if auto_rest cfg
                    then [PanAngle (clamp_angle cfg (servo_rest_pan cfg));
                          TiltAngle (clamp_angle cfg (servo_rest_tilt cfg))]
                    else [])).
Proof.
  unfold deactivated. cbv zeta. cbn [hardware set_hardware
    set_current_brightness].
  destruct (writes_set_brightness (rest_brightness cfg) (hardware c))
    as [M W].
  destruct (auto_rest cfg).
  - destruct (writes_set_orientation (servo_rest_pan cfg)
                (servo_rest_tilt cfg)
                (set_brightness (rest_brightness cfg) (hardware c)))
      as [M' W'].
    rewrite M', W', M, W. split; [reflexivity|].
    rewrite <- app_assoc. now destruct (mock (hardware c)).
  - rewrite M, W. split; [reflexivity|].
    now destruct (mock (hardware c)).
Qed.

Lemma writes_started (is_mock : bool) :
  mock (hardware (started_controller cfg is_mock)) = is_mock
  /\ writes (hardware (started_controller cfg is_mock))
     = if is_mock then []
       else [PanAngle (clamp_angle cfg (servo_rest_pan cfg));
             TiltAngle (clamp_angle cfg (servo_rest_tilt cfg));
             LedValue (clamp_brightness (rest_brightness cfg))].
Proof. now destruct is_mock. Qed.

End ControllerRuns.

(** X26.  Over any sequence of bus messages and ticks handled by a
    started controller, with [servo_min_angle <= servo_max_angle]: the
    stored brightness is always the active or the rest brightness; every
    angle assigned to a servo lies within the servo range and every value
    assigned to the LED within [[0, 1]]; in mock mode no device is ever
    assigned; and as long as only bus messages arrive, the lock is free
    after every call. *)
Theorem controller_invariants
  (cfg : SpotlightConfig) (is_mock : bool) (events : list ctl_event) :
  (servo_min_angle cfg <= servo_max_angle cfg)%Q ->
  let c := ctl_run cfg events (started_controller cfg is_mock) in
  (current_brightness c = brightness cfg
   \/ current_brightness c = rest_brightness cfg)
  /\ Forall (write_in_range cfg) (writes (hardware c))
  /\ (is_mock = true -> writes (hardware c) = [])
  /\ (forallb is_message events = true -> lock_held c = false).
Proof.
  intro Hrange. cbv zeta.
  pose proof (clamp_angle_range cfg) as Ha.
  pose proof clamp_brightness_range as Hb.
  assert (Hinv :
    let c := ctl_run cfg events (started_controller cfg is_mock) in
    (current_brightness c = brightness cfg
     \/ current_brightness c = rest_brightness cfg)
    /\ Forall (write_in_range cfg) (writes (hardware c))
    /\ mock (hardware c) = is_mock
    /\ (is_mock = true -> writes (hardware c) = [])).
  { apply (ctl_run_invariant cfg
             (fun c =>
                (current_brightness c = brightness cfg
                 \/ current_brightness c = rest_brightness cfg)
                /\ Forall (write_in_range cfg) (writes (hardware c))
                /\ mock (hardware c) = is_mock
                /\ (is_mock = true -> writes (hardware c) = []))).
    - intros c e (H1 & H2 & H3 & H4).
      destruct (ctl_step_cases cfg c e)
        as [-> | [(now & _ & ->) | [(now & _ & _ & ->)
           | [(_ & _ & ->) | (_ & ->)]]]]; auto.
      + destruct (writes_activated cfg now c) as [M W].
        rewrite M, W, H3. repeat split; auto.
        * apply Forall_app. split; [exact H2|].
          destruct is_mock; repeat constructor;
            try apply Ha; try apply Hb; exact Hrange.
        * intros ->. rewrite H4 by reflexivity. reflexivity.
      + destruct (writes_deactivated cfg c) as [M W].
        rewrite M, W, H3. repeat split; auto.
        * apply Forall_app. split; [exact H2|].
          destruct is_mock, (auto_rest cfg); repeat constructor;
            try apply Ha; try apply Hb; exact Hrange.
        * intros ->. rewrite H4 by reflexivity. reflexivity.
    - destruct (writes_started cfg is_mock) as [M W].
      rewrite M, W. repeat split; auto.
      + destruct is_mock; repeat constructor;
          try apply Ha; try apply Hb; exact Hrange.
      + now intros ->. }
  cbv zeta in Hinv. destruct Hinv as (H1 & H2 & _ & H4).
  repeat split; try assumption.
  clear H1 H2 H4. unfold ctl_run.
  assert (Hfree : lock_held (started_controller cfg is_mock) = false)
    by reflexivity.
  revert Hfree. generalize (started_controller cfg is_mock).
  induction events as [|e events IH]; intros c Hfree Hmsg; [exact Hfree|].
  cbn [forallb] in Hmsg. apply andb_prop in Hmsg as [He Hmsg].
  cbn [fold_left]. apply IH; [|exact Hmsg].
  destruct (ctl_step_cases cfg c e)
    as [-> | [(now & _ & ->) | [(now & _ & _ & ->)
       | [(_ & _ & ->) | (Hn & _)]]]]; auto.
  congruence.
Qed.

Lemma controller_invariants_witness :
  let c := ctl_run default_spotlight
             [Message "events/person/bedroom/out" 1; Tick 2;
              Message "events/person/bathroom/in" 3]
             (started_controller default_spotlight false) in
  (current_brightness c = brightness default_spotlight
   \/ current_brightness c = rest_brightness default_spotlight)
  /\ Forall (write_in_range default_spotlight) (writes (hardware c))
  /\ (false = true -> writes (hardware c) = [])
  /\ (forallb is_message
        [Message "events/person/bedroom/out" 1; Tick 2;
         Message "events/person/bathroom/in" 3] = true ->
      lock_held c = false).
Proof.
  apply (controller_invariants default_spotlight false).
  vm_compute. discriminate.
Defined.

Section LedAgreement.

Lemma clamp_brightness_id (v : Q) :
  (0 <= v)%Q -> (v <= 1)%Q -> (clamp_brightness v == v)%Q.
Proof.
  intros H0 H1. unfold clamp_brightness, py_max, py_min, Qgt_bool.
  destruct (Qlt_bool v 1.0) eqn:E1.
  - destruct (Qlt_bool 0.0 v) eqn:E0; [reflexivity|].
    apply Qlt_bool_false_iff in E0. lra.
  - apply Qlt_bool_false_iff in E1.
    destruct (Qlt_bool 0.0 1.0) eqn:E0; [lra|].
    apply Qlt_bool_false_iff in E0. lra.
Qed.

End LedAgreement.

(** X27.  On real hardware the LED always shows the stored brightness:
    after any sequence of bus messages and ticks handled by a started
    controller, the last value assigned to the LED is the stored
    brightness clamped to [[0, 1]], hence the stored brightness itself
    when that lies in [[0, 1]]. *)
Theorem led_shows_stored_brightness
  (cfg : SpotlightConfig) (events : list ctl_event) :
  let c := ctl_run cfg events (started_controller cfg false) in
  led_value (writes (hardware c))
  = Some (clamp_brightness (current_brightness c))
  /\ ((0 <= current_brightness c)%Q -> (current_brightness c <= 1)%Q ->
      exists v, led_value (writes (hardware c)) = Some v
                /\ (v == current_brightness c)%Q).
Proof.
  cbv zeta.
  assert (Hinv :
    let c := ctl_run cfg events (started_controller cfg false) in
    mock (hardware c) = false
    /\ led_value (writes (hardware c))
       = Some (clamp_brightness (current_brightness c))).
  { apply (ctl_run_invariant cfg
             (fun c =>
                mock (hardware c) = false
                /\ led_value (writes (hardware c))
                   = Some (clamp_brightness (current_brightness c)))).
    - intros c e (Hm & Hl).
      destruct (ctl_step_cases cfg c e)
        as [-> | [(now & _ & ->) | [(now & _ & _ & ->)
           | [(_ & _ & ->) | (_ & ->)]]]]; auto.
      + destruct (writes_activated cfg now c) as [M W].
        rewrite M, W, Hm. split; [reflexivity|].
        now rewrite led_value_app.
      + destruct (writes_deactivated cfg c) as [M W].
        rewrite M, W, Hm. split; [reflexivity|].
        rewrite led_value_app. now destruct (auto_rest cfg).
    - split; reflexivity. }
  cbv zeta in Hinv. destruct Hinv as [_ Hl].
  split; [exact Hl|].
  intros H0 H1. eexists. split; [exact Hl|].
  now apply clamp_brightness_id.
Qed.

Lemma led_shows_stored_brightness_witness :
  let c := ctl_run default_spotlight
             [Message "events/person/bedroom/out" 1]
             (started_controller default_spotlight false) in
  exists v, led_value (writes (hardware c)) = Some v
            /\ (v == current_brightness c)%Q.
Proof.
  cbv zeta.
  apply (proj2 (led_shows_stored_brightness default_spotlight
                  [Message "events/person/bedroom/out" 1])).
  - vm_compute. discriminate.
  - vm_compute. discriminate.
Defined.

(** X28.  When the configured active brightness equals the rest
    brightness, the controller never acts: no sequence of bus messages
    and ticks makes it assign to a device after [start]. *)
Theorem equal_brightness_never_acts
  (cfg : SpotlightConfig) (is_mock : bool) (events : list ctl_event) :
  (brightness cfg == rest_brightness cfg)%Q ->
  hardware (ctl_run cfg events (started_controller cfg is_mock))
  = hardware (started_controller cfg is_mock).
Proof.
  intro Heq.
  assert (Hinv :
    let c := ctl_run cfg events (started_controller cfg is_mock) in
    Qeq_bool (current_brightness c) (brightness cfg) = true
    /\ Qeq_bool (current_brightness c) (rest_brightness cfg) = true
    /\ hardware c = hardware (started_controller cfg is_mock)).
  { apply (ctl_run_invariant cfg
             (fun c =>
                Qeq_bool (current_brightness c) (brightness cfg) = true
                /\ Qeq_bool (current_brightness c) (rest_brightness cfg)
                   = true
                /\ hardware c = hardware (started_controller cfg is_mock))).
    - intros c e (H1 & H2 & H3).
      destruct (ctl_step_cases cfg c e)
        as [-> | [(now & _ & ->) | [(now & _ & Hne & _)
           | [(_ & Hne & _) | (_ & ->)]]]]; auto; congruence.
    - repeat split.
      + apply Qeq_bool_iff. cbn. now symmetry.
      + apply Qeq_bool_refl. }
  cbv zeta in Hinv. now destruct Hinv as (_ & _ & H).
Qed.

Lemma equal_brightness_never_acts_witness :
  let dim :=
    {| trigger_on_topics := ["on"]; trigger_off_topics := ["off"];
       light_hold_seconds := 8.0; brightness := 0.0;
       rest_brightness := 0.0;
       servo_pan_angle := -20.0; servo_tilt_angle := -5.0;
       servo_rest_pan := 0.0; servo_rest_tilt := 0.0;
       servo_min_angle := -90.0; servo_max_angle := 90.0;
       auto_rest := true |} in
  hardware (ctl_run dim [Message "on" 1; Tick 20; Message "off" 21]
              (started_controller dim false))
  = hardware (started_controller dim false).
Proof.
  cbv zeta. apply equal_brightness_never_acts. reflexivity.
Defined.

(** X29.  [_clamp_angle] leaves an angle of the servo range as it is and
    moves one outside to the nearer bound; with the bounds the wrong way
    round ([servo_max_angle < servo_min_angle]) every angle becomes
    [servo_min_angle]. *)
Theorem clamp_angle_cases (cfg : SpotlightConfig) (angle : Q) :
  ((servo_min_angle cfg <= angle)%Q -> (angle <= servo_max_angle cfg)%Q ->
   (clamp_angle cfg angle == angle)%Q)
  /\ ((servo_min_angle cfg <= servo_max_angle cfg)%Q ->
      ((angle <= servo_min_angle cfg)%Q ->
       (clamp_angle cfg angle == servo_min_angle cfg)%Q)
      /\ ((servo_max_angle cfg <= angle)%Q ->
          (clamp_angle cfg angle == servo_max_angle cfg)%Q))
  /\ ((servo_max_angle cfg < servo_min_angle cfg)%Q ->
      clamp_angle cfg angle = servo_min_angle cfg).
Proof.
  unfold clamp_angle, py_max, py_min, Qgt_bool.
  set (lo := servo_min_angle cfg). set (hi := servo_max_angle cfg).
  repeat split; intros;
    destruct (Qlt_bool angle hi) eqn:E1;
    try (destruct (Qlt_bool lo angle) eqn:E2);
    try (destruct (Qlt_bool lo hi) eqn:E3);
    repeat match goal with
           | H : Qlt_bool _ _ = true |- _ => apply Qlt_bool_iff in H
           | H : Qlt_bool _ _ = false |- _ => apply Qlt_bool_false_iff in H
           end;
    try reflexivity; try lra.
Qed.

Lemma clamp_angle_cases_witness :
  (clamp_angle default_spotlight 30 == 30)%Q
  /\ (clamp_angle default_spotlight 120 == 90.0)%Q.
Proof.
  split.
  - apply (proj1 (clamp_angle_cases default_spotlight 30));
      vm_compute; discriminate.
  - apply (proj1 (proj2 (clamp_angle_cases default_spotlight 120)));
      vm_compute; discriminate.
Defined.

(** X30.  [ensure_topics] fills what is empty and nothing else: after it
    both topic lists and the client id are non-empty, lists and an id
    that were non-empty are kept, and a second call changes nothing. *)
Theorem ensure_topics_fills_once
  (cfg : SpotlightConfig) (names : SpotlightNames) :
  let '(cfg1, names1) := ensure_topics cfg names in
  trigger_on_topics cfg1 <> []
  /\ trigger_off_topics cfg1 <> []
  /\ client_id names1 <> ""
  /\ (trigger_on_topics cfg <> [] ->
      trigger_on_topics cfg1 = trigger_on_topics cfg)
  /\ (trigger_off_topics cfg <> [] ->
      trigger_off_topics cfg1 = trigger_off_topics cfg)
  /\ (client_id names <> "" -> client_id names1 = client_id names)
  /\ ensure_topics cfg1 names1 = (cfg1, names1).
Proof.
  unfold ensure_topics.
  destruct cfg as [on off hold br rb pa ta rp rt mn mx ar].
  destruct names as [mid cid].
  cbn [trigger_on_topics trigger_off_topics client_id module_id
       set_trigger_topics light_hold_seconds brightness rest_brightness
       servo_pan_angle servo_tilt_angle servo_rest_pan servo_rest_tilt
       servo_min_angle servo_max_angle auto_rest].
  destruct on as [|o on], off as [|f off];
    destruct (String.eqb cid "") eqn:Ec;
    cbn [list_truthy String.append String.eqb Ascii.eqb Bool.eqb];
    try rewrite Ec;
    repeat split; try discriminate; try reflexivity;
    try (intro H; now contradiction H);
    try (apply String.eqb_neq in Ec; exact Ec);
    try (apply String.eqb_eq in Ec; intro H; congruence).
Qed.

(** * Geometry on binary64 *)

(** ** Sign symmetry of the IEEE 754 operations *)

Section SpecFloatSigns.
Import SpecFloat.
Variables prec emax : Z.

Lemma zeq_refl x : zeq x x.
Proof. destruct x; cbn; auto. Qed.

Lemma zeq_sym x y : zeq x y -> zeq y x.
Proof. destruct x, y; cbn; auto; discriminate. Qed.

Lemma zeq_trans x y z : zeq x y -> zeq y z -> zeq x z.
Proof. destruct x, y, z; cbn; auto; try discriminate; congruence. Qed.

Lemma zeq_eq x y : x = y -> zeq x y.
Proof. intros ->. apply zeq_refl. Qed.

(** Rounding to nearest even is symmetric in the sign. *)
Lemma binary_round_aux_opp s m e l :
  binary_round_aux prec emax (negb s) m e l
  = SFopp (binary_round_aux prec emax s m e l).
Proof.
  unfold binary_round_aux.
  destruct (shr_fexp prec emax m e l) as [mrs e'].
  destruct (shr_fexp prec emax _ e' loc_Exact) as [mrs' e''].
  destruct (shr_m mrs'); try reflexivity.
  now destruct (Z.leb e'' (Z.sub emax prec)).
Qed.

Lemma binary_round_opp s m e :
  binary_round prec emax (negb s) m e = SFopp (binary_round prec emax s m e).
Proof.
  unfold binary_round. destruct (shl_align _ _ _) as [mz ez].
  apply binary_round_aux_opp.
Qed.

Lemma binary_normalize_opp m e :
  zeq (binary_normalize prec emax (Z.opp m) e false)
      (SFopp (binary_normalize prec emax m e false)).
Proof.
  destruct m as [|p|p]; cbn [Z.opp binary_normalize].
  - exact I.
  - apply zeq_eq. apply (binary_round_opp false).
  - apply zeq_eq. rewrite <- (binary_round_opp true). reflexivity.
Qed.

Lemma SFopp_involutive x : SFopp (SFopp x) = x.
Proof. destruct x; cbn; now rewrite ?negb_involutive. Qed.

Lemma SFopp_zeq x y : zeq x y -> zeq (SFopp x) (SFopp y).
Proof.
  destruct x, y; cbn; auto; try discriminate; intro H; now inversion H.
Qed.

Ltac by_signs :=
  cbn; repeat match goal with s : bool |- _ => destruct s end; cbn;
  now auto.

(** [x - y] and [y - x] are opposite, up to the sign of a zero
    ([x - x] is [+0] both times). *)
Lemma SFsub_anti x y :
  zeq (SFsub prec emax x y) (SFopp (SFsub prec emax y x)).
Proof.
  destruct x as [sx|sx| |sx mx ex], y as [sy|sy| |sy my ey];
    try by_signs.
  cbn [SFsub]. rewrite (Z.min_comm ey ex).
  set (a := cond_Zopp sx _). set (b := cond_Zopp sy _).
  clearbody a b.
  replace (Z.sub a b) with (Z.opp (Z.sub b a)) by lia.
  apply binary_normalize_opp.
Qed.

Lemma xorb_negb_l a b : xorb (negb a) b = negb (xorb a b).
Proof. now destruct a, b. Qed.

Lemma xorb_negb_r a b : xorb a (negb b) = negb (xorb a b).
Proof. now destruct a, b. Qed.

Lemma SFmul_opp_l x y :
  SFmul prec emax (SFopp x) y = SFopp (SFmul prec emax x y).
Proof.
  destruct x as [sx|sx| |sx mx ex], y as [sy|sy| |sy my ey]; cbn;
    rewrite ?xorb_negb_l; try reflexivity.
  apply binary_round_aux_opp.
Qed.

Lemma SFmul_opp_r x y :
  SFmul prec emax x (SFopp y) = SFopp (SFmul prec emax x y).
Proof.
  destruct x as [sx|sx| |sx mx ex], y as [sy|sy| |sy my ey]; cbn;
    rewrite ?xorb_negb_r; try reflexivity.
  apply binary_round_aux_opp.
Qed.

Lemma SFmul_comm x y : SFmul prec emax x y = SFmul prec emax y x.
Proof.
  destruct x as [sx|sx| |sx mx ex], y as [sy|sy| |sy my ey]; cbn;
    rewrite ?(xorb_comm sx sy); try reflexivity.
  now rewrite Pos.mul_comm, Z.add_comm.
Qed.

Lemma SFmul_zeq x x' y y' :
  zeq x x' -> zeq y y' -> zeq (SFmul prec emax x y) (SFmul prec emax x' y').
Proof.
  destruct x as [sx|sx| |sx mx ex], x' as [sx'|sx'| |sx' mx' ex'];
    cbn [zeq]; intro Hx; try discriminate; try (inversion Hx; subst);
    destruct y as [sy|sy| |sy my ey], y' as [sy'|sy'| |sy' my' ey'];
    cbn [zeq]; intro Hy; try discriminate; try (inversion Hy; subst);
    try apply zeq_refl; cbn; auto.
Qed.

Lemma SFadd_opp x y :
  zeq (SFadd prec emax (SFopp x) (SFopp y)) (SFopp (SFadd prec emax x y)).
Proof.
  destruct x as [sx|sx| |sx mx ex], y as [sy|sy| |sy my ey];
    try by_signs.
  cbn [SFadd SFopp].
  set (a := Zpos (fst (shl_align mx ex (Z.min ex ey)))).
  set (b := Zpos (fst (shl_align my ey (Z.min ex ey)))).
  clearbody a b.
  replace (Z.add (cond_Zopp (negb sx) a) (cond_Zopp (negb sy) b))
    with (Z.opp (Z.add (cond_Zopp sx a) (cond_Zopp sy b)))
    by (destruct sx, sy; unfold cond_Zopp, negb; lia).
  apply binary_normalize_opp.
Qed.

Lemma SFadd_zeq x x' y y' :
  zeq x x' -> zeq y y' -> zeq (SFadd prec emax x y) (SFadd prec emax x' y').
Proof.
  destruct x as [sx|sx| |sx mx ex], x' as [sx'|sx'| |sx' mx' ex'];
    cbn [zeq]; intro Hx; try discriminate; try (inversion Hx; subst);
    destruct y as [sy|sy| |sy my ey], y' as [sy'|sy'| |sy' my' ey'];
    cbn [zeq]; intro Hy; try discriminate; try (inversion Hy; subst);
    try (apply zeq_refl);
    repeat match goal with s : bool |- _ => destruct s end; cbn; auto.
Qed.

Lemma SFcompare_zeq x x' y y' :
  zeq x x' -> zeq y y' -> SFcompare x y = SFcompare x' y'.
Proof.
  destruct x as [sx|sx| |sx mx ex], x' as [sx'|sx'| |sx' mx' ex'];
    cbn [zeq]; intro Hx; try discriminate; try (inversion Hx; subst);
    destruct y as [sy|sy| |sy my ey], y' as [sy'|sy'| |sy' my' ey'];
    cbn [zeq]; intro Hy; try discriminate; try (inversion Hy; subst);
    reflexivity.
Qed.

Lemma SFcompare_opp_zero d :
  SFcompare (S754_zero false) (SFopp d) = SFcompare d (S754_zero false).
Proof. destruct d as [s|s| |s m e]; try destruct s; reflexivity. Qed.

Lemma SFcompare_zero_opp d :
  SFcompare (SFopp d) (S754_zero false) = SFcompare (S754_zero false) d.
Proof. destruct d as [s|s| |s m e]; try destruct s; reflexivity. Qed.

Lemma SFltb_zero_exclusive d :
  SFltb (S754_zero false) d = true -> SFltb d (S754_zero false) = false.
Proof. destruct d as [s|s| |s m e]; try destruct s; cbn; congruence. Qed.

End SpecFloatSigns.

(** ** The same laws on the primitive floats *)

Section FloatLaws.
Import PrimFloat FloatAxioms FloatOps.
Local Open Scope float_scope.

Lemma feq_refl x : feq x x.
Proof. apply zeq_refl. Qed.

Lemma feq_trans x y z : feq x y -> feq y z -> feq x z.
Proof. apply zeq_trans. Qed.

Lemma feq_sym x y : feq x y -> feq y x.
Proof. apply zeq_sym. Qed.

Lemma fsub_anti x y : feq (x - y) (- (y - x)).
Proof.
  unfold feq. rewrite opp_spec, !sub_spec. apply SFsub_anti.
Qed.

Lemma fopp_feq x y : feq x y -> feq (- x) (- y).
Proof. unfold feq. rewrite !opp_spec. apply SFopp_zeq. Qed.

Lemma fopp_involutive x : - - x = x.
Proof.
  apply Prim2SF_inj. rewrite !opp_spec. apply SFopp_involutive.
Qed.

Lemma fmul_opp_l x y : (- x) * y = - (x * y).
Proof.
  apply Prim2SF_inj. rewrite opp_spec, !mul_spec, opp_spec.
  apply SFmul_opp_l.
Qed.

Lemma fmul_opp_r x y : x * (- y) = - (x * y).
Proof.
  apply Prim2SF_inj. rewrite opp_spec, !mul_spec, opp_spec.
  apply SFmul_opp_r.
Qed.

Lemma fmul_comm x y : x * y = y * x.
Proof. apply Prim2SF_inj. rewrite !mul_spec. apply SFmul_comm. Qed.

Lemma fmul_feq x x' y y' : feq x x' -> feq y y' -> feq (x * y) (x' * y').
Proof. unfold feq. rewrite !mul_spec. apply SFmul_zeq. Qed.

Lemma fadd_feq x x' y y' : feq x x' -> feq y y' -> feq (x + y) (x' + y').
Proof. unfold feq. rewrite !add_spec. apply SFadd_zeq. Qed.

Lemma fadd_opp x y : feq (- x + - y) (- (x + y)).
Proof.
  unfold feq. rewrite opp_spec, !add_spec, !opp_spec. apply SFadd_opp.
Qed.

Lemma fltb_feq x x' y y' : feq x x' -> feq y y' -> (x <? y) = (x' <? y').
Proof.
  unfold feq. intros Hx Hy. rewrite !ltb_spec. unfold SpecFloat.SFltb.
  now rewrite (SFcompare_zeq _ _ _ _ Hx Hy).
Qed.

Lemma feqb_feq x x' y y' : feq x x' -> feq y y' -> (x =? y) = (x' =? y').
Proof.
  unfold feq. intros Hx Hy. rewrite !eqb_spec. unfold SpecFloat.SFeqb.
  now rewrite (SFcompare_zeq _ _ _ _ Hx Hy).
Qed.

Lemma fltb_zero_opp d : (0 <? - d) = (d <? 0).
Proof.
  rewrite !ltb_spec, opp_spec. unfold SpecFloat.SFltb.
  change (Prim2SF 0) with (SpecFloat.S754_zero false).
  now rewrite SFcompare_opp_zero.
Qed.

Lemma fltb_opp_zero d : (- d <? 0) = (0 <? d).
Proof.
  rewrite !ltb_spec, opp_spec. unfold SpecFloat.SFltb.
  change (Prim2SF 0) with (SpecFloat.S754_zero false).
  now rewrite SFcompare_zero_opp.
Qed.

Lemma feqb_opp_zero d : (- d =? 0) = (d =? 0).
Proof.
  rewrite !eqb_spec, opp_spec. unfold SpecFloat.SFeqb.
  change (Prim2SF 0) with (SpecFloat.S754_zero false).
  rewrite SFcompare_zero_opp.
  destruct (Prim2SF d) as [s|s| |s m e]; try destruct s; reflexivity.
Qed.

(** A value is not both above and below zero (NaN is neither). *)
Lemma fltb_zero_exclusive d : (0 <? d) = true -> (d <? 0) = false.
Proof.
  rewrite !ltb_spec. change (Prim2SF 0) with (SpecFloat.S754_zero false).
  apply SFltb_zero_exclusive.
Qed.

(** ** [line_crossed] *)

(** [line_crossed] through the two computed quantities. *)
Lemma b64_line_crossed_unfold (prev curr : B64.point) (l : B64.line) :
  B64.line_crossed prev curr l
  = if (B64.side l prev =? 0) || (B64.side l curr =? 0)
       || (0 <? B64.side l prev * B64.side l curr)
    then None
    else Some (if 0 <? B64.dot prev curr l
               then "into_living"%string else "into_room"%string).
Proof. destruct l as [[x1 y1] [x2 y2]]. reflexivity. Qed.

(** The dot product of the reversed movement is the opposite of the dot
    product, up to the sign of a zero. *)
Lemma b64_dot_swap (prev curr : B64.point) (l : B64.line) :
  feq (B64.dot curr prev l) (- B64.dot prev curr l).
Proof.
  destruct prev as [p0 p1], curr as [c0 c1], l as [[x1 y1] [x2 y2]].
  unfold B64.dot. cbn [fst snd].
  eapply feq_trans; [|apply fadd_opp].
  apply fadd_feq.
  - rewrite <- fmul_opp_l. apply fmul_feq; [apply fsub_anti | apply feq_refl].
  - rewrite <- fmul_opp_l. apply fmul_feq; [apply fsub_anti | apply feq_refl].
Qed.

(** With the endpoints exchanged, the side value and the dot product are
    the opposite ones, up to the sign of a zero. *)
Lemma b64_side_reverse (l : B64.line) (p : B64.point) :
  feq (B64.side (B64.reverse_line l) p) (- B64.side l p).
Proof.
  destruct p as [p0 p1], l as [[x1 y1] [x2 y2]].
  unfold B64.side, B64.reverse_line. cbn [fst snd].
  eapply feq_trans; [|apply fadd_opp].
  apply fadd_feq; [|apply fsub_anti].
  eapply feq_trans; [|apply fadd_opp].
  apply fadd_feq.
  - rewrite <- fmul_opp_l. apply fmul_feq; [apply fsub_anti | apply feq_refl].
  - rewrite <- fmul_opp_l. apply fmul_feq; [apply fsub_anti | apply feq_refl].
Qed.

Lemma b64_dot_reverse (prev curr : B64.point) (l : B64.line) :
  feq (B64.dot prev curr (B64.reverse_line l)) (- B64.dot prev curr l).
Proof.
  destruct prev as [p0 p1], curr as [c0 c1], l as [[x1 y1] [x2 y2]].
  unfold B64.dot, B64.reverse_line. cbn [fst snd].
  eapply feq_trans; [|apply fadd_opp].
  apply fadd_feq.
  - rewrite <- fmul_opp_r. apply fmul_feq; [apply feq_refl | apply fsub_anti].
  - rewrite <- fmul_opp_r. apply fmul_feq; [apply feq_refl | apply fsub_anti].
Qed.

(** The two outcomes of a pair of calls whose [None] tests agree and
    whose dot products are opposite. *)
Lemma b64_opposite_dots (c : bool) (d d' : float) :
  feq d' (- d) ->
  let r1 := if c then None
            else Some (if 0 <? d
                       then "into_living"%string else "into_room"%string) in
  let r2 := if c then None
            else Some (if 0 <? d'
                       then "into_living"%string else "into_room"%string) in
  (r1 = None /\ r2 = None)
  \/ (r1 = Some "into_living"%string /\ r2 = Some "into_room"%string
      /\ (0 <? d) = true)
  \/ (r1 = Some "into_room"%string /\ r2 = Some "into_living"%string
      /\ (d <? 0) = true)
  \/ (r1 = Some "into_room"%string /\ r2 = Some "into_room"%string
      /\ (0 <? d) = false /\ (d <? 0) = false).
Proof.
  intro Hd. cbv zeta. destruct c; [now left|]. right.
  rewrite (fltb_feq _ _ _ _ (feq_refl 0) Hd), fltb_zero_opp.
  destruct (0 <? d) eqn:Epos.
  - rewrite (fltb_zero_exclusive _ Epos). left. auto.
  - destruct (d <? 0); auto. right. right. auto.
Qed.

End FloatLaws.

(** ** Laws of [line_crossed] and [point_in_polygon] *)

Section Binary64Geometry.
Import PrimFloat.

(** C7, as stated, fails on binary64.  For the line from (0.1, 0.3) to
    (0.7, 0.6) and the points (0.24, 0.37) and (0.26, 0.38), the two side
    values round to tiny numbers of opposite sign, while the dot product
    rounds to zero: both [line_crossed(prev, curr, L)] and
    [line_crossed(curr, prev, L)] return ["into_room"]. *)
Lemma line_crossed_swap_same_direction :
  B64.line_crossed (0.24, 0.37)%float (0.26, 0.38)%float
    ((0.1, 0.3), (0.7, 0.6))%float = Some "into_room"
  /\ B64.line_crossed (0.26, 0.38)%float (0.24, 0.37)%float
       ((0.1, 0.3), (0.7, 0.6))%float = Some "into_room".
Proof. split; vm_compute; reflexivity. Qed.

(** C7, amended.  For all binary64 points and lines (NaN and infinities
    included), [line_crossed(prev, curr, L)] and
    [line_crossed(curr, prev, L)] are both [None] or both a direction.
    The directions are opposite when the computed dot product [d] of the
    first call is above or below zero; when it is neither (a zero after
    rounding, or NaN) both calls return ["into_room"]. *)
Theorem line_crossed_swap_binary64
  (prev curr : B64.point) (l : B64.line) :
  let r1 := B64.line_crossed prev curr l in
  let r2 := B64.line_crossed curr prev l in
  let d := B64.dot prev curr l in
  (r1 = None /\ r2 = None)
  \/ (r1 = Some "into_living" /\ r2 = Some "into_room"
      /\ PrimFloat.ltb 0 d = true)
  \/ (r1 = Some "into_room" /\ r2 = Some "into_living"
      /\ PrimFloat.ltb d 0 = true)
  \/ (r1 = Some "into_room" /\ r2 = Some "into_room"
      /\ PrimFloat.ltb 0 d = false /\ PrimFloat.ltb d 0 = false).
Proof.
  cbv zeta. rewrite !b64_line_crossed_unfold.
  rewrite (fmul_comm (B64.side l curr) (B64.side l prev)).
  rewrite (orb_comm (PrimFloat.eqb (B64.side l curr) 0)
             (PrimFloat.eqb (B64.side l prev) 0)).
  exact (b64_opposite_dots _ _ _ (b64_dot_swap prev curr l)).
Qed.

(** X2.  Exchanging the two endpoints of the door line keeps [None] and
    exchanges the directions returned by [line_crossed] on binary64,
    unless the computed dot product is neither above nor below zero;
    then both orientations of the line give ["into_room"]. *)
Theorem line_crossed_reverse_line
  (prev curr : B64.point) (l : B64.line) :
  let r1 := B64.line_crossed prev curr l in
  let r2 := B64.line_crossed prev curr (B64.reverse_line l) in
  let d := B64.dot prev curr l in
  (r1 = None /\ r2 = None)
  \/ (r1 = Some "into_living" /\ r2 = Some "into_room"
      /\ PrimFloat.ltb 0 d = true)
  \/ (r1 = Some "into_room" /\ r2 = Some "into_living"
      /\ PrimFloat.ltb d 0 = true)
  \/ (r1 = Some "into_room" /\ r2 = Some "into_room"
      /\ PrimFloat.ltb 0 d = false /\ PrimFloat.ltb d 0 = false).
Proof.
  cbv zeta. rewrite !b64_line_crossed_unfold.
  rewrite (feqb_feq _ _ _ _ (b64_side_reverse l prev) (feq_refl 0)).
  rewrite (feqb_feq _ _ _ _ (b64_side_reverse l curr) (feq_refl 0)).
  rewrite !feqb_opp_zero.
  rewrite (fltb_feq _ _ _ _ (feq_refl 0)
             (fmul_feq _ _ _ _ (b64_side_reverse l prev)
                (b64_side_reverse l curr))).
  rewrite fmul_opp_l, fmul_opp_r, fopp_involutive.
  exact (b64_opposite_dots _ _ _ (b64_dot_reverse prev curr l)).
Qed.

(** ** [point_in_polygon] *)

Section RingEdges.
Context {A : Type}.

(** Reversing a vertex ring reverses every edge and permutes the edges. *)
Lemma ring_edges_rev (l : list A) :
  Permutation (map swap (combine (rev l) (rot1 (rev l))))
              (combine l (rot1 l)).
Proof.
  rewrite combine_swap.
  destruct l as [|z m0 _] using rev_ind; [constructor|].
  replace (rot1 (rev (m0 ++ [z]))) with (rev (z :: m0))
    by (now rewrite rev_unit).
  rewrite combine_rev by (cbn; now rewrite last_length).
  rewrite <- Permutation_rev.
  change (m0 ++ [z]) with (rot1 (z :: m0)).
  rewrite combine_rot1 by (now rewrite length_rot1).
  symmetry. apply Permutation_rot1.
Qed.

Lemma parity_ext_in (f g : A -> bool) (l : list A) :
  (forall a, In a l -> f a = g a) -> parity f l = parity g l.
Proof.
  induction l as [|a l IH]; intro H; [reflexivity|].
  rewrite !parity_cons, (H a) by (now left).
  rewrite IH; [reflexivity|]. intros b Hb. apply H. now right.
Qed.

Lemma swap_involutive {B : Type} (p : A * B) : swap (swap p) = p.
Proof. now destruct p. Qed.
End RingEdges.

Section B64Polygon.
Variable pt : B64.point.

Let crosses (e : B64.point * B64.point) : bool :=
  B64.intersects pt (fst e) (snd e).

(** The index loop of the source is the parity over the edges. *)
Lemma b64_point_in_polygon_edges (poly : B64.polygon) :
  B64.point_in_polygon pt poly = parity crosses (B64.edges poly).
Proof.
  unfold B64.point_in_polygon, B64.edges.
  rewrite (combine_as_map_seq poly (rot1 poly) (0, 0)%float (0, 0)%float)
    by (now rewrite length_rot1).
  rewrite parity_map.
  transitivity
    (fold_left
       (fun inside i =>
          if crosses (nth i poly (0, 0)%float,
                      nth i (rot1 poly) (0, 0)%float)
          then negb inside else inside)
       (seq 0 (List.length poly)) false).
  - apply fold_left_ext_in. intros i inside Hi.
    apply in_seq in Hi. rewrite nth_rot1 by lia. reflexivity.
  - now rewrite toggle_fold_parity.
Qed.

Lemma b64_point_in_polygon_rot1 (poly : B64.polygon) :
  B64.point_in_polygon pt (rot1 poly) = B64.point_in_polygon pt poly.
Proof.
  rewrite !b64_point_in_polygon_edges. unfold B64.edges.
  rewrite combine_rot1 by (now rewrite length_rot1).
  apply parity_Permutation, Permutation_rot1.
Qed.

Lemma b64_point_in_polygon_rev (poly : B64.polygon) :
  B64.orientation_free pt poly = true ->
  B64.point_in_polygon pt (rev poly) = B64.point_in_polygon pt poly.
Proof.
  intro Hfree. unfold B64.orientation_free in Hfree.
  rewrite forallb_forall in Hfree.
  rewrite !b64_point_in_polygon_edges. unfold B64.edges.
  rewrite <- (parity_Permutation crosses _ _ (ring_edges_rev poly)).
  rewrite parity_map. apply parity_ext_in. intros e He.
  assert (Hin : In (swap e) (B64.edges poly)).
  { apply (Permutation_in _ (ring_edges_rev poly)).
    now apply in_map. }
  specialize (Hfree _ Hin). apply eqb_prop in Hfree.
  unfold crosses. destruct e as [v1 v2]. cbn [swap fst snd] in *.
  now symmetry.
Qed.

(** Fewer than two vertices: no edge, or one edge from a vertex to
    itself, which never straddles the ray.  Two vertices: the same edge
    in both orientations. *)
Lemma b64_point_in_polygon_small (poly : B64.polygon) :
  (List.length poly < 2)%nat -> B64.point_in_polygon pt poly = false.
Proof.
  intro Hlen. rewrite b64_point_in_polygon_edges.
  destruct poly as [|v [|w rest]]; [reflexivity| |cbn in Hlen; lia].
  cbn. unfold crosses, B64.intersects. cbn [fst snd].
  destruct pt as [x y], v as [x1 y1].
  now rewrite Bool.eqb_reflx.
Qed.

Lemma b64_point_in_polygon_pair (a b : B64.point) :
  B64.point_in_polygon pt [a; b]
  = xorb (B64.intersects pt a b) (B64.intersects pt b a).
Proof.
  rewrite b64_point_in_polygon_edges. cbn. unfold crosses. cbn [fst snd].
  now rewrite xorb_false_r.
Qed.
End B64Polygon.

(** C8, as stated, fails on binary64 for the reversal.  The point
    (0.178, 0.592) lies within rounding distance of the left edge of the
    default living-room polygon: the abscissa of the edge at that height
    rounds differently for the two orientations of the edge, and the
    point is inside the polygon and outside the reversed one. *)
Lemma point_in_polygon_reverse_differs :
  B64.point_in_polygon (0.178, 0.592)%float B64.default_polygon = true
  /\ B64.point_in_polygon (0.178, 0.592)%float (rev B64.default_polygon)
     = false.
Proof. split; vm_compute; reflexivity. Qed.

(** C8, amended.  For all binary64 points and vertex sequences,
    [point_in_polygon] returns the same boolean for the sequence rotated
    cyclically by any number of positions.  It returns the same boolean
    for the reversed sequence when the edge test answers the same for
    both orientations of every edge of the polygon. *)
Theorem point_in_polygon_rotation_and_reversal
  (pt : B64.point) (poly : B64.polygon) :
  (forall k : nat,
      B64.point_in_polygon pt (rotate k poly)
      = B64.point_in_polygon pt poly)
  /\ (B64.orientation_free pt poly = true ->
      B64.point_in_polygon pt (rev poly) = B64.point_in_polygon pt poly).
Proof.
  split.
  - induction k as [|k IH]; [reflexivity|].
    change (rotate (S k) poly) with (rot1 (rotate k poly)).
    now rewrite b64_point_in_polygon_rot1.
  - apply b64_point_in_polygon_rev.
Qed.

Lemma point_in_polygon_rotation_and_reversal_witness :
  B64.orientation_free (0.5, 0.5)%float B64.default_polygon = true
  /\ B64.point_in_polygon (0.5, 0.5)%float (rotate 3 B64.default_polygon)
     = B64.point_in_polygon (0.5, 0.5)%float B64.default_polygon
  /\ B64.point_in_polygon (0.5, 0.5)%float (rev B64.default_polygon)
     = B64.point_in_polygon (0.5, 0.5)%float B64.default_polygon.
Proof.
  split; [vm_compute; reflexivity|].
  split.
  - apply (proj1 (point_in_polygon_rotation_and_reversal
                    (0.5, 0.5)%float B64.default_polygon)).
  - apply (proj2 (point_in_polygon_rotation_and_reversal
                    (0.5, 0.5)%float B64.default_polygon)).
    vm_compute; reflexivity.
Defined.

(** X4.  On binary64, [point_in_polygon] returns [False] for every point
    when the vertex sequence has fewer than two vertices.  For two
    vertices the result is the exclusive or of the edge test on the two
    orientations of the one edge, and it can be [True]: the point
    (0.5, 0.4) is reported inside the two-vertex sequence
    (0.1, 0.1), (0.9, 0.7). *)
Theorem point_in_polygon_degenerate (pt : B64.point) (poly : B64.polygon) :
  (List.length poly < 2)%nat ->
  B64.point_in_polygon pt poly = false
  /\ (forall a b : B64.point,
         B64.point_in_polygon pt [a; b]
         = xorb (B64.intersects pt a b) (B64.intersects pt b a))
  /\ B64.point_in_polygon (0.5, 0.4)%float [(0.1, 0.1); (0.9, 0.7)]%float
     = true.
Proof.
  intro Hlen. split; [now apply b64_point_in_polygon_small|].
  split; [apply b64_point_in_polygon_pair|].
  vm_compute; reflexivity.
Qed.

Lemma point_in_polygon_degenerate_witness :
  B64.point_in_polygon (0.5, 0.5)%float [(0.2, 0.35)%float] = false
  /\ (forall a b : B64.point,
         B64.point_in_polygon (0.5, 0.5)%float [a; b]
         = xorb (B64.intersects (0.5, 0.5)%float a b)
                (B64.intersects (0.5, 0.5)%float b a))
  /\ B64.point_in_polygon (0.5, 0.4)%float [(0.1, 0.1); (0.9, 0.7)]%float
     = true.
Proof.
  apply (point_in_polygon_degenerate (0.5, 0.5)%float [(0.2, 0.35)%float]).
  cbn. lia.
Defined.

(** ** Agreement with the exact model at the scenario inputs *)

(** At the points and door lines used in the scenarios, the binary64
    functions return what the exact-arithmetic ones return. *)
Lemma binary64_agrees_at_scenario_inputs :
  B64.line_crossed (0.25, 0.20)%float (0.25, 0.40)%float B64.default_bed_door
  = line_crossed (0.25, 0.20)%Q (0.25, 0.40)%Q (bed_door default_geometry)
  /\ B64.line_crossed (0.25, 0.40)%float (0.25, 0.20)%float
       B64.default_bed_door
     = line_crossed (0.25, 0.40)%Q (0.25, 0.20)%Q (bed_door default_geometry)
  /\ B64.line_crossed (0.5, 0.5)%float (0.5, 0.1)%float B64.default_bed_door
     = line_crossed (0.5, 0.5)%Q (0.5, 0.1)%Q (bed_door default_geometry)
  /\ B64.line_crossed (0.25, 0.20)%float (0.25, 0.40)%float
       B64.default_bath_door
     = line_crossed (0.25, 0.20)%Q (0.25, 0.40)%Q (bath_door default_geometry)
  /\ B64.point_in_polygon (0.5, 0.5)%float B64.default_polygon
     = point_in_polygon (0.5, 0.5)%Q (living_room_polygon default_geometry)
  /\ B64.point_in_polygon (0.5, 0.1)%float B64.default_polygon
     = point_in_polygon (0.5, 0.1)%Q (living_room_polygon default_geometry)
  /\ B64.point_in_polygon (0.25, 0.40)%float B64.default_polygon
     = point_in_polygon (0.25, 0.40)%Q (living_room_polygon default_geometry).
Proof. repeat split; vm_compute; reflexivity. Qed.

End Binary64Geometry.

(** * Spotlight controller: two activations *)

Section NewWrites.
Context {A : Type}.

Lemma skipn_length_app (l x : list A) : skipn (List.length l) (l ++ x) = x.
Proof. induction l as [|a l IH]; [reflexivity|exact IH]. Qed.
End NewWrites.

(** [_on_message] ends before the topic test, with the controller as it
    was, when the payload is not valid UTF-8. *)
Lemma on_message_bytes_undecodable
  (cfg : SpotlightConfig) (topic : string) (now : Q)
  (c : SpotlightController) :
  on_message_bytes cfg false topic now c = None
  /\ on_message_bytes cfg true topic now c
     = Some (on_message cfg topic now c).
Proof. split; reflexivity. Qed.

(** C10, as stated, fails for a controller already at the active
    brightness: on real hardware, with the lock free, two calls of
    [_activate] then assign to no device at all, so there is no hardware
    transition, not exactly one. *)
Lemma activate_twice_when_lit_writes_nothing :
  lock_held lit_controller = false
  /\ mock (hardware lit_controller) = false
  /\ new_writes lit_controller (activate default_spotlight 1 lit_controller)
     = []
  /\ new_writes (final (activate default_spotlight 1 lit_controller))
       (activate default_spotlight 2
          (final (activate default_spotlight 1 lit_controller)))
     = []
  /\ writes (hardware
               (final (activate default_spotlight 2
                         (final (activate default_spotlight 1
                                   lit_controller)))))
     = writes (hardware lit_controller).
Proof. vm_compute. repeat split. Qed.

(** C10, amended.  From a controller state with the lock free, two calls
    of [_activate] with nothing in between both return and make at most
    one hardware transition.  The first call stores its time in
    [_last_on]; when the stored brightness differs from the active one
    it assigns pan, tilt and LED (clamped), in this order, unless the
    hardware is mocked, and stores the active brightness; when the stored
    brightness already is the active one it assigns nothing.  The second
    call assigns to no device, leaves the stored brightness unchanged
    and only stores the time of the second call in [_last_on]. *)
Theorem activate_twice_at_most_one_transition
  (cfg : SpotlightConfig) (t1 t2 : Q) (c : SpotlightController) :
  lock_held c = false ->
  exists c1 c2,
    activate cfg t1 c = Returned c1
    /\ activate cfg t2 c1 = Returned c2
    /\ c1 = (if Qeq_bool (current_brightness c) (brightness cfg)
             then set_last_on t1 c else activated cfg t1 c)
    /\ new_writes c (Returned c1)
       = (if Qeq_bool (current_brightness c) (brightness cfg)
             || mock (hardware c)
          then []
          else [PanAngle (clamp_angle cfg (servo_pan_angle cfg));
                TiltAngle (clamp_angle cfg (servo_tilt_angle cfg));
                LedValue (clamp_brightness (brightness cfg))])
    /\ last_on c1 = t1
    /\ c2 = set_last_on t2 c1
    /\ new_writes c1 (Returned c2) = []
    /\ hardware c2 = hardware c1
    /\ current_brightness c2 = current_brightness c1
    /\ last_on c2 = t2.
Proof.
  intro Hfree.
  set (c1 := if Qeq_bool (current_brightness c) (brightness cfg)
             then set_last_on t1 c else activated cfg t1 c).
  assert (H1 : activate cfg t1 c = Returned c1).
  { rewrite (activate_cases cfg t1 c Hfree). subst c1.
    now destruct (Qeq_bool (current_brightness c) (brightness cfg)). }
  assert (Hfree1 : lock_held c1 = false).
  { subst c1.
    now destruct (Qeq_bool (current_brightness c) (brightness cfg)). }
  assert (Hact1 : Qeq_bool (current_brightness c1) (brightness cfg) = true).
  { subst c1.
    destruct (Qeq_bool (current_brightness c) (brightness cfg)) eqn:E;
      [exact E | apply Qeq_bool_refl]. }
  assert (H2 : activate cfg t2 c1 = Returned (set_last_on t2 c1)).
  { rewrite (activate_cases cfg t2 c1 Hfree1). now rewrite Hact1. }
  exists c1, (set_last_on t2 c1).
  split; [exact H1|]. split; [exact H2|]. split; [reflexivity|].
  split.
  { unfold new_writes. cbn [final]. subst c1.
    destruct (Qeq_bool (current_brightness c) (brightness cfg));
      cbn [orb].
    - cbn [set_last_on hardware]. rewrite <- (app_nil_r (writes (hardware c))) at 2.
      apply skipn_length_app.
    - destruct (writes_activated cfg t1 c) as [_ W]. rewrite W.
      apply skipn_length_app. }
  split.
  { subst c1.
    now destruct (Qeq_bool (current_brightness c) (brightness cfg)). }
  split; [reflexivity|].
  split.
  { unfold new_writes. cbn [final set_last_on hardware].
    rewrite <- (app_nil_r (writes (hardware c1))) at 2.
    apply skipn_length_app. }
  repeat split.
Qed.

Lemma activate_twice_at_most_one_transition_witness :
  exists c1 c2,
    activate default_spotlight 1 (init_controller default_spotlight false)
    = Returned c1
    /\ activate default_spotlight 2 c1 = Returned c2
    /\ c1 = (if Qeq_bool
                  (current_brightness
                     (init_controller default_spotlight false))
                  (brightness default_spotlight)
             then set_last_on 1 (init_controller default_spotlight false)
             else activated default_spotlight 1
                    (init_controller default_spotlight false))
    /\ new_writes (init_controller default_spotlight false) (Returned c1)
       = (if Qeq_bool
               (current_brightness
                  (init_controller default_spotlight false))
               (brightness default_spotlight)
             || mock (hardware (init_controller default_spotlight false))
          then []
          else [PanAngle (clamp_angle default_spotlight
                            (servo_pan_angle default_spotlight));
                TiltAngle (clamp_angle default_spotlight
                             (servo_tilt_angle default_spotlight));
                LedValue (clamp_brightness (brightness default_spotlight))])
    /\ last_on c1 = 1
    /\ c2 = set_last_on 2 c1
    /\ new_writes c1 (Returned c2) = []
    /\ hardware c2 = hardware c1
    /\ current_brightness c2 = current_brightness c1
    /\ last_on c2 = 2.
Proof.
  apply (activate_twice_at_most_one_transition default_spotlight 1 2
           (init_controller default_spotlight false)).
  reflexivity.
Defined.
